(** * A shallow embedding of lnsp/transaction

    The repository is a small housekeeping book: package [db] holds the money
    values, the transactions, the ledger ([Database]) and its persistence;
    package [main] holds the command line actions (store, list, filter,
    delete).  The source comes in several evolutions; the definitions below
    follow the latest one (db with [Withdraw]/[Deposit]/[ZeroValue], main
    version 0.2), and the modules [Earlier] and [Monolith] keep the older
    variants of the functions that changed. *)

From Stdlib Require Import ZArith Ascii Lia Bool.
From Stdlib Require String.
From stdpp Require Import base option list gmap strings sorting.

Local Open Scope Z_scope.

(** ** Go's [int]

    All integers of the program are Go [int]s; they are modelled as [Z] with
    the 64-bit two's complement wrap-around written out at each arithmetic
    operation. *)
Module GoInt.

Definition minInt : Z := - 2 ^ 63.
Definition maxInt : Z := 2 ^ 63 - 1.

Definition is_int (z : Z) : Prop := minInt <= z <= maxInt.

Definition wrap (z : Z) : Z := (z + 2 ^ 63) mod 2 ^ 64 - 2 ^ 63.

Definition add (a b : Z) : Z := wrap (a + b).
Definition neg (a : Z) : Z := wrap (- a).
Definition mul (a b : Z) : Z := wrap (a * b).
(* Go's / and % truncate toward zero; the divisors of the program are the
   positive currency ratios, so the quotient never overflows. *)
Definition quo (a b : Z) : Z := wrap (Z.quot a b).
Definition rem (a b : Z) : Z := Z.rem a b.

End GoInt.

(** ** White space in UTF-8

    Go strings are sequences of bytes that [fmt] and [strings] read as UTF-8
    runes.  The white space of both packages is the same set of runes
    (fmt's table [space] and unicode.IsSpace): U+0009 to U+000D and U+0020
    in one byte, and the runes below in two and three bytes.  A rune is
    white only in its shortest encoding; every other sequence decodes to
    utf8.RuneError or to another rune. *)
Module Utf8.

(* U+0085 and U+00A0: C2 85, C2 A0. *)
Definition isSpace2 (c1 c2 : ascii) : bool :=
  let a := N_of_ascii c1 in
  let b := N_of_ascii c2 in
  ((a =? 194) && ((b =? 133) || (b =? 160)))%N.

(* U+1680: E1 9A 80.  U+2000 to U+200A, U+2028, U+2029, U+202F: E2 80 80 to
   E2 80 8A, E2 80 A8, E2 80 A9, E2 80 AF.  U+205F: E2 81 9F.  U+3000:
   E3 80 80. *)
Definition isSpace3 (c1 c2 c3 : ascii) : bool :=
  let a := N_of_ascii c1 in
  let b := N_of_ascii c2 in
  let c := N_of_ascii c3 in
  (((a =? 225) && (b =? 154) && (c =? 128))
   || ((a =? 226) && (b =? 128)
       && (((128 <=? c) && (c <=? 138)) || (c =? 168) || (c =? 169) || (c =? 175)))
   || ((a =? 226) && (b =? 129) && (c =? 159))
   || ((a =? 227) && (b =? 128) && (c =? 128)))%N.

End Utf8.

(** ** Package fmt: the part of Sprintf and Sscanf that the program uses

    The formats of the program are ["%d.%02d"] followed by a currency sign.
    The model covers literal bytes, a plain [%%], and the verb [%d] with the
    flag [0] and a width; input and format are sequences of bytes, read as
    UTF-8 where the scanner looks for white space.  Formats with white
    space, other verbs and other flags are outside the model. *)
Module Fmt.

Inductive directive :=
  | Lit (c : ascii)
  | Verb (zero : bool) (wid : option nat) (verb : ascii)
  | NoVerb.

Inductive fstate :=
  | Text
  | Spec (zero : bool) (wid : option nat).

Definition isDigit (c : ascii) : bool :=
  let n := N_of_ascii c in (48 <=? n)%N && (n <=? 57)%N.

Definition digitVal (c : ascii) : Z := Z.of_N (N_of_ascii c) - 48.

(* byte('0' + d) *)
Definition digitChar (d : Z) : ascii := ascii_of_N (Z.to_N (48 + d)).

(* Splits a format into its directives: after a [%], the zeros in front are
   the flag 0 (for Sscanf they are the leading zeros of the width), the
   digits are the width, and the next byte is the verb. *)
Fixpoint parseFormat (st : fstate) (format : string) : list directive :=
  match format with
  | EmptyString => match st with Text => [] | Spec _ _ => [NoVerb] end
  | String c rest =>
      match st with
      | Text =>
          if Ascii.eqb c "%" then parseFormat (Spec false None) rest
          else Lit c :: parseFormat Text rest
      | Spec zero None =>
          if Ascii.eqb c "0" then parseFormat (Spec true None) rest
          else if isDigit c then
            parseFormat (Spec zero (Some (Z.to_nat (digitVal c)))) rest
          else Verb zero None c :: parseFormat Text rest
      | Spec zero (Some w) =>
          if isDigit c then
            parseFormat (Spec zero (Some (10 * w + Z.to_nat (digitVal c))%nat)) rest
          else Verb zero (Some w) c :: parseFormat Text rest
      end
  end.

(** *** Printing *)

(* The digit loop of fmtInteger in base 10:
     for u >= 10 { i--; next := u / 10; buf[i] = byte('0' + u - next*10); u = next }
     i--; buf[i] = digits[u]
   [buf] is the part of the buffer already written.  Each round removes a
   decimal digit of [u]; [fuel] bounds the rounds. *)
Fixpoint fmtDigits (fuel : nat) (u : Z) (buf : string) : string :=
  match fuel with
  | O => buf
  | S fuel' =>
      if 10 <=? u then
        fmtDigits fuel' (u / 10) (String (digitChar (u - (u / 10) * 10)) buf)
      else String (digitChar u) buf
  end.

(* The bit length of [u] is at least its number of decimal digits. *)
Definition digitsFuel (u : Z) : nat := S (Z.to_nat (Z.log2 u)).

(* The digits that the loop writes for [u] into an empty buffer. *)
Definition decimal (u : Z) : string := fmtDigits (digitsFuel u) u "".

Fixpoint allDigits (s : string) : bool :=
  match s with
  | EmptyString => true
  | String c rest => isDigit c && allDigits rest
  end.

Fixpoint repeatChar (c : ascii) (n : nat) (s : string) : string :=
  match n with
  | O => s
  | S n' => String c (repeatChar c n' s)
  end.

(* fmtInteger for a signed integer in base 10, without the flags + and
   space and without a precision: with the flag 0 and a width, the digits
   are filled with zeros up to the width, less one for a sign; then the sign
   is written; then f.pad fills with spaces on the left up to the width. *)
Definition fmtInteger (zero : bool) (wid : option nat) (v : Z) : string :=
  let negative := v <? 0 in
  let u := if negative then - v else v in
  let prec :=
    match wid with
    | Some w => if zero then (if negative then Nat.pred w else w) else O
    | None => O
    end in
  let ds := decimal u in
  let ds := repeatChar "0" (prec - String.length ds) ds in
  let out := if negative then String "-" ds else ds in
  match wid with
  | Some w => repeatChar " " (w - String.length out) out
  | None => out
  end.

(* The text of a verb that is wrong for an int, as in "%!z(int=5)". *)
Definition badVerb (verb : ascii) (v : Z) : string :=
  "%!" +:+ String verb ("(int=" +:+ fmtInteger false None v +:+ ")").

Fixpoint doPrintf (ds : list directive) (a : list Z) : string :=
  match ds with
  | [] => ""
  | Lit c :: ds' => String c (doPrintf ds' a)
  | NoVerb :: ds' => "%!(NOVERB)" +:+ doPrintf ds' a
  | Verb zero wid verb :: ds' =>
      if Ascii.eqb verb "%" then String "%" (doPrintf ds' a)
      else
        match a with
        | [] => "%!" +:+ String verb ("(MISSING)" +:+ doPrintf ds' [])
        | v :: a' =>
            (if Ascii.eqb verb "d" then fmtInteger zero wid v else badVerb verb v)
            +:+ doPrintf ds' a'
        end
  end.

Definition Sprintf (format : string) (a : list Z) : string :=
  doPrintf (parseFormat Text format) a.

(** *** Scanning *)

Inductive ScanError :=
  | errEOF
  | errUnexpectedEOF
  | errUnexpectedNewline
  | errExpectedInteger
  | errSyntax
  | errRange
  | errNoMatch
  | errTooFewOperands
  | errTooManyOperands
  | errBadVerb.

(* The white space of the scanner other than the newline: the runes of one
   byte here, those of two and three bytes in [Utf8]. *)
Definition isSpace (c : ascii) : bool :=
  let n := N_of_ascii c in
  (n =? 9)%N || (n =? 11)%N || (n =? 12)%N || (n =? 13)%N || (n =? 32)%N.

Definition isNewline (c : ascii) : bool := (N_of_ascii c =? 10)%N.

(* ss.SkipSpace for Sscanf, where a newline is not a space: [None] is the
   error "unexpected newline".  The input is read rune by rune; a rune that
   is no space is put back. *)
Fixpoint SkipSpace (src : string) : option string :=
  match src with
  | EmptyString => Some EmptyString
  | String c1 rest1 =>
      if isNewline c1 then None
      else if isSpace c1 then SkipSpace rest1
      else
        match rest1 with
        | String c2 rest2 =>
            if Utf8.isSpace2 c1 c2 then SkipSpace rest2
            else
              match rest2 with
              | String c3 rest3 =>
                  if Utf8.isSpace3 c1 c2 c3 then SkipSpace rest3 else Some src
              | EmptyString => Some src
              end
        | EmptyString => Some src
        end
  end.

(* The width left for the operand: [None] is no width (hugeWid). *)
Definition exhausted (budget : option nat) : bool :=
  match budget with Some O => true | _ => false end.

Definition spend (budget : option nat) : option nat := Nat.pred <$> budget.

(* s.notEOF(): there is a byte to read within the width. *)
Definition atEOF (budget : option nat) (src : string) : bool :=
  exhausted budget || match src with EmptyString => true | _ => false end.

Definition isSign (c : ascii) : bool := Ascii.eqb c "+" || Ascii.eqb c "-".

(* decimalDigits, the digits that getBase gives the verb d. *)
Definition isDecimalDigit (c : ascii) : bool := isDigit c.

(* The input ends, or goes on with a byte that the digit loop does not
   accept. *)
Definition stops (rest : string) : Prop :=
  match rest with
  | EmptyString => True
  | String c _ => isDecimalDigit c = false
  end.

(* for s.accept(digits) { }: the bytes accepted and the input left. *)
Fixpoint acceptRun (ok : ascii → bool) (budget : option nat) (src : string)
    : string * string :=
  match src with
  | EmptyString => (EmptyString, EmptyString)
  | String c rest =>
      if exhausted budget then (EmptyString, src)
      else if ok c then
        let '(tok, src') := acceptRun ok (spend budget) rest in
        (String c tok, src')
      else (EmptyString, src)
  end.

(* The loop of strconv.ParseUint in base 10: n = n*10 + d; a byte that is
   no digit is a syntax error. *)
Fixpoint parseDigits (n : Z) (s : string) : option Z :=
  match s with
  | EmptyString => Some n
  | String c rest =>
      if isDigit c then parseDigits (n * 10 + digitVal c) rest else None
  end.

(* strconv.ParseInt(tok, 10, 64) *)
Definition ParseInt (tok : string) : Z + ScanError :=
  let '(neg, body) :=
    match tok with
    | String c rest =>
        if Ascii.eqb c "+" then (false, rest)
        else if Ascii.eqb c "-" then (true, rest)
        else (false, tok)
    | EmptyString => (false, tok)
    end in
  match body with
  | EmptyString => inr errSyntax
  | _ =>
      match parseDigits 0 body with
      | None => inr errSyntax
      | Some un =>
          if negb neg && (2 ^ 63 <=? un) then inr errRange
          else if neg && (2 ^ 63 <? un) then inr errRange
          else inl (if neg then - un else un)
      end
  end.

(* ss.scanInt for the verb d into an int: the sign, the digits, ParseInt.
   Its own SkipSpace comes right after the one of doScanf and finds nothing
   left to skip. *)
Definition scanInt (budget : option nat) (src : string)
    : (Z * string) + ScanError :=
  if atEOF budget src then inr errEOF
  else
    let '(sgn, budget1, src1) :=
      match src with
      | String c rest =>
          if isSign c then (String c EmptyString, spend budget, rest)
          else (EmptyString, budget, src)
      | EmptyString => (EmptyString, budget, src)
      end in
    if atEOF budget1 src1 then inr errEOF
    else
      let '(digs, src2) := acceptRun isDecimalDigit budget1 src1 in
      match digs with
      | EmptyString => inr errExpectedInteger
      | _ =>
          match ParseInt (sgn +:+ digs) with
          | inl i => inl (i, src2)
          | inr e => inr e
          end
      end.

(* The width of a scanning verb: the digits after the [%], zeros included. *)
Definition scanWidth (zero : bool) (wid : option nat) : option nat :=
  match wid with
  | Some w => Some w
  | None => if zero then Some O else None
  end.

(* ss.doScanf: [a] holds the current values of the operands still to be
   scanned; the result holds their values afterwards.  An operand scanned
   before an error keeps the scanned value. *)
Fixpoint doScanf (ds : list directive) (src : string) (a : list Z)
    : list Z * option ScanError :=
  match ds with
  | [] => (a, match a with [] => None | _ => Some errTooManyOperands end)
  | Lit c :: ds' =>
      match src with
      | EmptyString => (a, Some errUnexpectedEOF)
      | String c' rest =>
          if Ascii.eqb c c' then doScanf ds' rest a else (a, Some errNoMatch)
      end
  | NoVerb :: _ => (a, Some errBadVerb)
  | Verb zero wid verb :: ds' =>
      if Ascii.eqb verb "%" then
        match src with
        | EmptyString => (a, Some errUnexpectedEOF)
        | String c' rest =>
            if Ascii.eqb c' "%" then doScanf ds' rest a else (a, Some errNoMatch)
        end
      else
        match SkipSpace src with
        | None => (a, Some errUnexpectedNewline)
        | Some src1 =>
            match a with
            | [] => (a, Some errTooFewOperands)
            | x :: a' =>
                if Ascii.eqb verb "d" then
                  match scanInt (scanWidth zero wid) src1 with
                  | inl (v, src2) =>
                      let '(a'', e) := doScanf ds' src2 a' in (v :: a'', e)
                  | inr e => (a, Some e)
                  end
                else (a, Some errBadVerb)
            end
        end
  end.

Definition Sscanf (str format : string) (a : list Z) : list Z * option ScanError :=
  doScanf (parseFormat Text format) str a.

End Fmt.

(** ** Package db: values, transactions, the ledger *)
Module Db.

(* Go's [error] interface is [option Error]: [None] is the nil error. *)
Inductive Errno := ENOENT | EACCES.

Inductive Error :=
  | errTransactionNotFound
  | PathError (op path : string) (cause : Errno)
  | JSONError (msg : string).

(* Action is a transaction type: a string. *)
Definition Action := string.
Definition Withdraw : Action := "withdraw"%string.
Definition Deposit : Action := "deposit"%string.

(* Value is a specific amount of money: a Go int. *)
Definition Value := Z.
Definition ZeroValue : Value := 0.

(* time.Time, as a count of seconds after the zero time. *)
Definition Time := Z.

Record Transaction := {
  Name : string;
  Amount : Value;
  Type_ : Action;
  Date : Time
}.

(* Transaction{} *)
Definition zeroTransaction : Transaction :=
  {| Name := ""; Amount := 0; Type_ := ""; Date := 0 |}.

(* time.Now() is the argument [now]. *)
Definition NewTransaction (now : Time) (name : string) (action : Action)
    (amount : Value) : Transaction :=
  {| Name := name; Amount := amount; Type_ := action; Date := now |}.

Record Database := {
  DatabaseName : string;
  Transactions : list Transaction
}.

(* Database{} *)
Definition zeroDatabase : Database :=
  {| DatabaseName := ""; Transactions := [] |}.

Definition NewDatabase (name : string) : Database :=
  {| DatabaseName := name; Transactions := [] |}.

Definition Database_Size (db : Database) : Z :=
  Z.of_nat (length (Transactions db)).

Definition Database_Store (db : Database) (transact : Transaction) : Database :=
  {| DatabaseName := DatabaseName db;
     Transactions := Transactions db ++ [transact] |}.

(** Slices.  An index or slice expression out of range is a run-time panic:
    the operations return [None] there. *)
Definition index {A} (s : list A) (i : Z) : option A :=
  if (i <? 0) || (Z.of_nat (length s) <=? i) then None
  else s !! Z.to_nat i.

(* s[:hi] *)
Definition slice_to {A} (s : list A) (hi : Z) : option (list A) :=
  if (hi <? 0) || (Z.of_nat (length s) <? hi) then None
  else Some (take (Z.to_nat hi) s).

(* s[lo:] *)
Definition slice_from {A} (s : list A) (lo : Z) : option (list A) :=
  if (lo <? 0) || (Z.of_nat (length s) <? lo) then None
  else Some (drop (Z.to_nat lo) s).

(* Delete a transaction at the given position.  The result is the ledger
   after the call and the returned error; [None] is a panic. *)
Definition Database_Delete (db : Database) (ID : Z)
    : option (Database * option Error) :=
  if (ID <? 0) || (ID >=? Database_Size db) then
    Some (db, Some errTransactionNotFound)
  else
    front ← slice_to (Transactions db) ID;
    back ← slice_from (Transactions db) (GoInt.add ID 1);
    Some ({| DatabaseName := DatabaseName db; Transactions := front ++ back |},
          None).

(* Retrieve a transaction from the database. *)
Definition Database_Read (db : Database) (ID : Z)
    : option (Transaction * option Error) :=
  if (ID <? 0) || (ID >=? Database_Size db) then
    Some (zeroTransaction, Some errTransactionNotFound)
  else
    transact ← index (Transactions db) ID;
    Some (transact, None).

(** *** Money *)

Record Currency := {
  CurrencyName : string;
  Format : string;
  Ratio : Value
}.

Definition Euro : Currency :=
  {| CurrencyName := "Euro"; Format := "%d.%02dâ‚¬"; Ratio := 100 |}.
Definition Dollar : Currency :=
  {| CurrencyName := "Dollar"; Format := "%d.%02d$"; Ratio := 100 |}.
Definition DefaultCurrency : Currency := Euro.

Definition abs (x : Value) : Value :=
  if x <? ZeroValue then GoInt.neg x else x.

(* func (v Value) String() string *)
Definition Value_String (v : Value) : string :=
  Fmt.Sprintf (Format DefaultCurrency)
    [GoInt.quo v (Ratio DefaultCurrency);
     abs (GoInt.rem v (Ratio DefaultCurrency))].

Definition Value_Add (v a : Value) : Value := GoInt.add v a.
Definition Value_Smaller (v a : Value) : bool := v <? a.
Definition Value_Larger (v a : Value) : bool := v >? a.

(* Parse a string into a pile of money.  The count and the error of Sscanf
   are dropped; [maj] and [min] are 0 where nothing was scanned into them. *)
Definition Parse (in_ : string) : Value :=
  let vars := (Fmt.Sscanf in_ (Format DefaultCurrency) [0; 0]).1 in
  let maj := default 0 (vars !! 0%nat) in
  let min := default 0 (vars !! 1%nat) in
  GoInt.add (GoInt.mul maj (Ratio DefaultCurrency))
            (GoInt.rem min (Ratio DefaultCurrency)).

(** *** The file system

    The state that ioutil.ReadFile, ioutil.WriteFile and os.Stat act on: the
    files by path, with their permission to read and to write, and whether a
    new file may be created.  A path that cannot be reached (a directory
    without search permission) is an entry without either permission: reads
    and writes fail with EACCES, and Stat fails with an error that is not
    IsNotExist. *)
Record File := {
  content : string;
  readable : bool;
  writable : bool
}.

Record FileSystem := {
  files : gmap string File;
  creatable : bool
}.

Definition ReadFile (fs : FileSystem) (path : string) : string * option Error :=
  match files fs !! path with
  | None => ("", Some (PathError "open" path ENOENT))
  | Some f =>
      if readable f then (content f, None)
      else ("", Some (PathError "open" path EACCES))
  end.

(* ioutil.WriteFile(path, data, 0644): the file is created or truncated. *)
Definition WriteFile (fs : FileSystem) (path : string) (data : string)
    : FileSystem * option Error :=
  match files fs !! path with
  | None =>
      if creatable fs then
        ({| files := <[path := {| content := data; readable := true;
                                  writable := true |}]> (files fs);
            creatable := creatable fs |}, None)
      else (fs, Some (PathError "open" path EACCES))
  | Some f =>
      if writable f then
        ({| files := <[path := {| content := data; readable := readable f;
                                  writable := writable f |}]> (files fs);
            creatable := creatable fs |}, None)
      else (fs, Some (PathError "open" path EACCES))
  end.

(* _, err := os.Stat(path); os.IsNotExist(err): true when there is no entry
   for the path; an entry, reachable or not, gives no error or another one. *)
Definition StatNotExist (fs : FileSystem) (path : string) : bool :=
  match files fs !! path with None => true | Some _ => false end.

(** *** Persistence

    encoding/json is outside the repository: [Marshal] and [Unmarshal] are
    the variables of the section.  [Unmarshal data v] returns the value that
    [v] points to afterwards (a failed call may have filled a part of it) and
    the error. *)
Section Persistence.

Variable Marshal : Database → string * option Error.
Variable Unmarshal : string → Database → Database * option Error.
(* filepath.Join(os.Getenv("HOME"), ".trdb") *)
Variable defaultDatabasePath : string.

(* Open a existing database. *)
Definition Open (fs : FileSystem) : Database * option Error :=
  let database := zeroDatabase in
  let '(bytes, err) := ReadFile fs defaultDatabasePath in
  match err with
  | Some e => (zeroDatabase, Some e)
  | None =>
      let '(database, err) := Unmarshal bytes database in
      match err with
      | Some _ => (zeroDatabase, None)
      | None => (database, None)
      end
  end.

(* Exists is true if the database already exists. *)
Definition Exists (fs : FileSystem) : bool :=
  if StatNotExist fs defaultDatabasePath then false else true.

(* Write the database to the hard drive.  The result of ioutil.WriteFile is
   not looked at. *)
Definition Write (fs : FileSystem) (database : Database)
    : FileSystem * option Error :=
  let '(json, err) := Marshal database in
  match err with
  | Some e => (fs, Some e)
  | None =>
      let '(fs', _) := WriteFile fs defaultDatabasePath json in
      (fs', None)
  end.

(* Store the transaction in the existing database. *)
Definition Store (fs : FileSystem) (transact : Transaction)
    : FileSystem * option Error :=
  let '(database, err) := Open fs in
  match err with
  | Some e => (fs, Some e)
  | None => Write fs (Database_Store database transact)
  end.

(* Get a transaction from an existing database. *)
Definition Get (fs : FileSystem) (ID : Z) : option (Transaction * option Error) :=
  let '(database, err) := Open fs in
  match err with
  | Some e => Some (zeroTransaction, Some e)
  | None => Database_Read database ID
  end.

(* Delete a transaction from an existing database. *)
Definition Delete (fs : FileSystem) (ID : Z) : option (FileSystem * option Error) :=
  let '(database, err) := Open fs in
  match err with
  | Some e => Some (fs, Some e)
  | None =>
      '(database', err) ← Database_Delete database ID;
      match err with
      | Some e => Some (fs, Some e)
      | None => Some (Write fs database')
      end
  end.

End Persistence.

End Db.

(** ** Package main: the filter and the table of transactions *)
Module Main.
Import Db.

(* strings.ToLower, on ASCII text: the letters A to Z. *)
Definition toLowerChar (c : ascii) : ascii :=
  let n := N_of_ascii c in
  if (65 <=? n)%N && (n <=? 90)%N then ascii_of_N (n + 32) else c.

Fixpoint ToLower (s : string) : string :=
  match s with
  | EmptyString => EmptyString
  | String c rest => String (toLowerChar c) (ToLower rest)
  end.

(* unicode.IsSpace: the runes of one byte here, those of two and three
   bytes in [Utf8]. *)
Definition isWhite (c : ascii) : bool :=
  let n := N_of_ascii c in ((9 <=? n)%N && (n <=? 13)%N) || (n =? 32)%N.

(* The text is white space from its first byte to its last. *)
Fixpoint allWhite (s : string) : bool :=
  match s with
  | EmptyString => true
  | String c1 rest1 =>
      if isWhite c1 then allWhite rest1
      else
        match rest1 with
        | String c2 rest2 =>
            if Utf8.isSpace2 c1 c2 then allWhite rest2
            else
              match rest2 with
              | String c3 rest3 => Utf8.isSpace3 c1 c2 c3 && allWhite rest3
              | EmptyString => false
              end
        | EmptyString => false
        end
  end.

(* strings.TrimSpace drops the white runes at the start ... *)
Fixpoint TrimLeft (s : string) : string :=
  match s with
  | EmptyString => EmptyString
  | String c1 rest1 =>
      if isWhite c1 then TrimLeft rest1
      else
        match rest1 with
        | String c2 rest2 =>
            if Utf8.isSpace2 c1 c2 then TrimLeft rest2
            else
              match rest2 with
              | String c3 rest3 =>
                  if Utf8.isSpace3 c1 c2 c3 then TrimLeft rest3 else s
              | EmptyString => s
              end
        | EmptyString => s
        end
  end.

(* ... and those at the end. *)
Fixpoint TrimRight (s : string) : string :=
  match s with
  | EmptyString => EmptyString
  | String c rest => if allWhite s then EmptyString else String c (TrimRight rest)
  end.

Definition TrimSpace (s : string) : string := TrimRight (TrimLeft s).

Definition isTypeDeposit (text : string) : bool :=
  let lc := ToLower (TrimSpace text) in
  String.eqb lc "dp" || String.eqb lc "deposit" || String.eqb lc "depo".

Definition isTypeWithdraw (text : string) : bool :=
  let lc := ToLower (TrimSpace text) in
  String.eqb lc "wd" || String.eqb lc "withdraw" || String.eqb lc "draw".

(* The switch on the kind in the balance loops (printTransactionTable, and
   the list actions before it). *)
Definition balanceStep (balance : Value) (transact : Transaction) : Value :=
  if String.eqb (Type_ transact) Withdraw then
    Value_Add balance (GoInt.neg (Amount transact))
  else if String.eqb (Type_ transact) Deposit then
    Value_Add balance (Amount transact)
  else balance.

(* The kind is one of the two cases of the switch. *)
Definition knownKind (transact : Transaction) : bool :=
  String.eqb (Type_ transact) Withdraw || String.eqb (Type_ transact) Deposit.

(* var balance db.Value; for ... { switch transact.Type { ... } } over the
   transactions in the order of the loop. *)
Definition RunningBalance (transactions : list Transaction) : Value :=
  foldl balanceStep ZeroValue transactions.

(* for i := range transactions { ids = append(ids, i) }; sort.Ints(ids) *)
Definition sortedIds (transactions : gmap Z Transaction) : list Z :=
  merge_sort Z.le (map_to_list transactions).*1.

(* printTransactionTable: the rows in the order they are printed and the
   balance printed below them. *)
Definition printTransactionTable (transactions : gmap Z Transaction)
    : list (Z * Transaction) * Value :=
  let rows :=
    (λ id, (id, default zeroTransaction (transactions !! id)))
      <$> sortedIds transactions in
  (rows, RunningBalance rows.*2).

(* The kind match in the words of the specification: the predicate is a
   synonym of the kind of the transaction. *)
Definition kindMatches (typePredicate : string) (kind : Action) : Prop :=
  (isTypeWithdraw typePredicate = true ∧ kind = Withdraw)
  ∨ (isTypeDeposit typePredicate = true ∧ kind = Deposit).

(* The four tests of the loop of filterAction that end in [continue]. *)
Definition skipped (namePredicate : string) (maxPredicate minPredicate : Value)
    (typePredicate : string) (transact : Transaction) : bool :=
  if negb (String.eqb namePredicate "")
     && negb (String.eqb (Name transact) namePredicate) then true
  else if negb (maxPredicate =? ZeroValue)
          && Value_Smaller maxPredicate (Amount transact) then true
  else if negb (minPredicate =? ZeroValue)
          && Value_Larger minPredicate (Amount transact) then true
  else if negb (String.eqb typePredicate "")
          && ((isTypeDeposit typePredicate
               && negb (String.eqb (Type_ transact) Deposit))
              || (isTypeWithdraw typePredicate
                  && negb (String.eqb (Type_ transact) Withdraw))) then true
  else false.

(* for id := 0; id < database.Size(); id++ { ... idMap[id] = transact }
   [None] is a panic, or the end of the fuel. *)
Fixpoint filterLoop (database : Database) (namePredicate : string)
    (maxPredicate minPredicate : Value) (typePredicate : string)
    (fuel : nat) (id : Z) (idMap : gmap Z Transaction)
    : option (gmap Z Transaction * option Error) :=
  match fuel with
  | O => None
  | S fuel' =>
      if id <? Database_Size database then
        '(transact, err) ← Database_Read database id;
        match err with
        | Some e => Some (idMap, Some e)
        | None =>
            filterLoop database namePredicate maxPredicate minPredicate
              typePredicate fuel' (GoInt.add id 1)
              (if skipped namePredicate maxPredicate minPredicate
                    typePredicate transact
               then idMap else <[id := transact]> idMap)
        end
      else Some (idMap, None)
  end.

(* The loop of filterAction over an opened database, with the predicates
   already parsed. *)
Definition Filter (database : Database) (namePredicate : string)
    (maxPredicate minPredicate : Value) (typePredicate : string)
    : option (gmap Z Transaction * option Error) :=
  filterLoop database namePredicate maxPredicate minPredicate typePredicate
    (S (Z.to_nat (Database_Size database))) 0 ∅.

Section Actions.

Variable Unmarshal : string → Database → Database * option Error.
Variable defaultDatabasePath : string.

(* filterAction with the flags name, max, min and type: the printed table
   and the returned error. *)
Definition filterAction (fs : FileSystem) (name max min type_ : string)
    : option (option (list (Z * Transaction) * Value) * option Error) :=
  let '(database, err) := Open Unmarshal defaultDatabasePath fs in
  match err with
  | Some e => Some (None, Some e)
  | None =>
      let namePredicate := name in
      let maxPredicate := Parse max in
      let minPredicate := Parse min in
      let typePredicate := type_ in
      '(idMap, err) ← Filter database namePredicate maxPredicate minPredicate
                        typePredicate;
      match err with
      | Some e => Some (None, Some e)
      | None => Some (Some (printTransactionTable idMap), None)
      end
  end.

End Actions.

End Main.

(** ** The earlier evolutions

    [Earlier] is the first version of package db with the list action of
    main version 0.1; [Monolith] is the program when it was one file
    (src/main.go). *)
Module Earlier.
Import Db.

(* The first version of db.Delete: the bounds check is the other way round. *)
Definition Database_Delete (db : Database) (ID : Z)
    : option (Database * option Error) :=
  if (ID >? -1) && (ID <? Database_Size db) then
    Some (db, Some errTransactionNotFound)
  else
    front ← slice_to (Transactions db) ID;
    back ← slice_from (Transactions db) (GoInt.add ID 1);
    Some ({| DatabaseName := DatabaseName db; Transactions := front ++ back |},
          None).

Definition Database_Read (db : Database) (ID : Z)
    : option (Transaction * option Error) :=
  if (ID >? -1) && (ID <? Database_Size db) then
    Some (zeroTransaction, Some errTransactionNotFound)
  else
    transact ← index (Transactions db) ID;
    Some (transact, None).

(* The first version of Value.String: the minor part is not passed through
   abs. *)
Definition Value_String (v : Value) : string :=
  Fmt.Sprintf (Format DefaultCurrency)
    [GoInt.quo v (Ratio DefaultCurrency); GoInt.rem v (Ratio DefaultCurrency)].

(* The loop of listAction in main version 0.1, over the first version of
   Read: the balance that is printed, if the loop gets there, and the
   returned error. *)
Fixpoint listLoop (database : Database) (fuel : nat) (ID : Z) (balance : Value)
    : option (option Value * option Error) :=
  match fuel with
  | O => None
  | S fuel' =>
      if ID <? Database_Size database then
        '(transact, err) ← Database_Read database ID;
        match err with
        | Some e => Some (None, Some e)
        | None =>
            listLoop database fuel' (GoInt.add ID 1)
              (Main.balanceStep balance transact)
        end
      else Some (Some balance, None)
  end.

Definition listAction (database : Database)
    : option (option Value * option Error) :=
  listLoop database (S (Z.to_nat (Database_Size database))) 0 ZeroValue.

End Earlier.

Module Monolith.
Import Db.

Definition CURRENCY_FORMAT : string := "%d.%02d€".
Definition MAJ_MIN : Z := 100.

Definition Value_String (v : Value) : string :=
  Fmt.Sprintf CURRENCY_FORMAT [GoInt.quo v MAJ_MIN; GoInt.rem v MAJ_MIN].

(* The balance of the list action: for _, transact := range db.Transactions
   with the same switch. *)
Definition listBalance (db : Database) : Value :=
  Main.RunningBalance (Transactions db).

End Monolith.

(** ** Two invocations against one file

    A composite mutator ([Store] or [Delete] of package db) runs db.Open, the
    mutation in memory and db.Write.  The file is the only state the
    invocations share, and nothing orders the calls of one invocation with
    the calls of the other: a run of two invocations is an interleaving of
    their calls. *)
Module Concurrent.
Import Db.

Inductive Mutator :=
  | StoreTransaction (transact : Transaction)
  | DeleteTransaction (ID : Z).

(* The mutation in memory, between Open and Write. *)
Definition mutate (m : Mutator) (database : Database)
    : option (Database * option Error) :=
  match m with
  | StoreTransaction transact => Some (Database_Store database transact, None)
  | DeleteTransaction ID => Database_Delete database ID
  end.

(* Where an invocation stands. *)
Inductive Proc :=
  | Start (m : Mutator)
  | Opened (m : Mutator) (database : Database)
  | Mutated (database : Database)
  | Returned (err : option Error)
  | Panicked.

Inductive Pid := P1 | P2.

Record System := {
  disk : FileSystem;
  proc1 : Proc;
  proc2 : Proc
}.

Section Processes.

Variable Marshal : Database → string * option Error.
Variable Unmarshal : string → Database → Database * option Error.
Variable defaultDatabasePath : string.

(* The next call of an invocation. *)
Definition stepProc (fs : FileSystem) (p : Proc) : FileSystem * Proc :=
  match p with
  | Start m =>
      let '(database, err) := Open Unmarshal defaultDatabasePath fs in
      match err with
      | Some e => (fs, Returned (Some e))
      | None => (fs, Opened m database)
      end
  | Opened m database =>
      match mutate m database with
      | None => (fs, Panicked)
      | Some (_, Some e) => (fs, Returned (Some e))
      | Some (database', None) => (fs, Mutated database')
      end
  | Mutated database =>
      let '(fs', err) := Write Marshal defaultDatabasePath fs database in
      (fs', Returned err)
  | Returned _ | Panicked => (fs, p)
  end.

Definition step (sys : System) (pid : Pid) : System :=
  match pid with
  | P1 =>
      let '(fs', p') := stepProc (disk sys) (proc1 sys) in
      {| disk := fs'; proc1 := p'; proc2 := proc2 sys |}
  | P2 =>
      let '(fs', p') := stepProc (disk sys) (proc2 sys) in
      {| disk := fs'; proc1 := proc1 sys; proc2 := p' |}
  end.

(* The run of an interleaving: the list names the invocation that makes the
   next call. *)
Definition run (schedule : list Pid) (sys : System) : System :=
  foldl step sys schedule.

(* One invocation on its own. *)
Definition alone (fs : FileSystem) (m : Mutator) : System :=
  run [P1; P1; P1]
    {| disk := fs; proc1 := Start m; proc2 := Returned None |}.

End Processes.

End Concurrent.

(** ** Package main: the other actions

    The actions read the answers of the user from the console, a buffered
    reader on the standard input, which is modelled as the text still to be
    read.  What the actions print is left out, except for the table. *)
Module Cli.
Import Db Main.

Inductive Failure :=
  | DbError (e : Error)
  | NumError (fn num : string) (e : Fmt.ScanError)
  | EOF.

(* console.ReadString('\n'): the text up to and with the first newline and
   the text left; without a newline, all the text and the error io.EOF. *)
Fixpoint ReadString (stdin : string) : string * option Failure * string :=
  match stdin with
  | EmptyString => (EmptyString, Some EOF, EmptyString)
  | String c rest =>
      if Fmt.isNewline c then (String c EmptyString, None, rest)
      else
        let '(line, err, rest') := ReadString rest in
        (String c line, err, rest')
  end.

Definition getInput (stdin : string) : string * option Failure * string :=
  let '(input, err, rest) := ReadString stdin in
  match err with
  | Some e => (EmptyString, Some e, rest)
  | None => (TrimSpace input, None, rest)
  end.

(* The loop of listAction (main 0.2), downwards from the last index:
   for id := database.Size() - 1; id >= 0 && id >= startValue; id-- *)
Fixpoint latestLoop (database : Database) (startValue : Z) (fuel : nat)
    (id : Z) (idMap : gmap Z Transaction)
    : option (gmap Z Transaction * option Error) :=
  match fuel with
  | O => None
  | S fuel' =>
      if (id >=? 0) && (id >=? startValue) then
        '(transact, err) ← Database_Read database id;
        match err with
        | Some e => Some (idMap, Some e)
        | None =>
            latestLoop database startValue fuel' (GoInt.wrap (id - 1))
              (<[id := transact]> idMap)
        end
      else Some (idMap, None)
  end.

(* The map that listAction builds for the flag limit. *)
Definition Latest (database : Database) (limit : Z)
    : option (gmap Z Transaction * option Error) :=
  let startValue := GoInt.wrap (Database_Size database - limit) in
  latestLoop database startValue (S (Z.to_nat (Database_Size database)))
    (GoInt.wrap (Database_Size database - 1)) ∅.

Definition wipeDatabaseYes : string := "y".
Definition wipeDatabaseNo : string := "n".
Definition wipeTransactionYes : string := "y".

Section Actions.

Variable Marshal : Database → string * option Error.
Variable Unmarshal : string → Database → Database * option Error.
Variable defaultDatabasePath : string.

(* listAction with the flag limit: the printed table and the error. *)
Definition listAction (fs : FileSystem) (limit : Z)
    : option (option (list (Z * Transaction) * Value) * option Error) :=
  let '(database, err) := Open Unmarshal defaultDatabasePath fs in
  match err with
  | Some e => Some (None, Some e)
  | None =>
      '(idMap, err) ← Latest database limit;
      match err with
      | Some e => Some (None, Some e)
      | None => Some (Some (printTransactionTable idMap), None)
      end
  end.

(* initAction (main 0.2) with the flag force.  The answer to the question
   is scanned by fmt.Scanf("%s") without an operand and never reaches
   [status]. *)
Definition initAction (force : bool) (fs : FileSystem) (stdin : string)
    : FileSystem * option Error :=
  let create :=
    let '(name, _, _) := getInput stdin in
    let database := NewDatabase name in
    Write Marshal defaultDatabasePath fs database in
  if Exists defaultDatabasePath fs && negb force then
    let status := wipeDatabaseNo in
    if negb (String.eqb status wipeDatabaseYes) then (fs, None)
    else create
  else create.

(* deleteAction (main 0.2) with its first argument; strconv.Atoi is
   ParseInt in base 10 for the 64 bits of an int. *)
Definition deleteAction (fs : FileSystem) (arg : string) (stdin : string)
    : option (FileSystem * option Failure) :=
  match Fmt.ParseInt arg with
  | inr e => Some (fs, Some (NumError "Atoi" arg e))
  | inl ID =>
      match Get Unmarshal defaultDatabasePath fs ID with
      | None => None
      | Some (transaction, Some e) => Some (fs, Some (DbError e))
      | Some (transaction, None) =>
          let '(confirmation, err, _) := getInput stdin in
          match err with
          | Some e => Some (fs, Some e)
          | None =>
              if negb (String.eqb confirmation wipeTransactionYes) then
                Some (fs, None)
              else
                match Delete Marshal Unmarshal defaultDatabasePath fs ID with
                | None => None
                | Some (fs', Some e) => Some (fs', Some (DbError e))
                | Some (fs', None) => Some (fs', None)
                end
          end
      end
  end.

(* The three loops of storeAction (main 0.1), each asking until the answer
   is accepted; the error of getInput is dropped.  [None] is the end of the
   fuel. *)
Fixpoint askName (fuel : nat) (stdin : string) : option (string * string) :=
  match fuel with
  | O => None
  | S fuel' =>
      let '(name, _, rest) := getInput stdin in
      if String.eqb name "" then askName fuel' rest else Some (name, rest)
  end.

Fixpoint askAction (fuel : nat) (stdin : string) : option (Action * string) :=
  match fuel with
  | O => None
  | S fuel' =>
      let '(actionString, _, rest) := getInput stdin in
      let action : Action :=
        if String.eqb actionString "wd" then Withdraw
        else if String.eqb actionString "dp" then Deposit
        else "" in
      if String.eqb action "" then askAction fuel' rest else Some (action, rest)
  end.

Fixpoint askAmount (fuel : nat) (stdin : string) : option (Value * string) :=
  match fuel with
  | O => None
  | S fuel' =>
      let '(amountString, _, rest) := getInput stdin in
      let amount := Parse amountString in
      if amount =? 0 then askAmount fuel' rest else Some (amount, rest)
  end.

(* storeAction (main 0.1); [now] is time.Now(). *)
Definition storeAction (fuel : nat) (now : Time) (fs : FileSystem)
    (stdin : string) : option (FileSystem * option Error) :=
  '(name, stdin1) ← askName fuel stdin;
  '(action, stdin2) ← askAction fuel stdin1;
  '(amount, stdin3) ← askAmount fuel stdin2;
  let transact := NewTransaction now name action amount in
  Some (Store Marshal Unmarshal defaultDatabasePath fs transact).

End Actions.

End Cli.

(** ** Sample data *)
Module Demo.
Import Db.

Definition salary : Transaction :=
  {| Name := "Salary"; Amount := 250000; Type_ := Deposit; Date := 1 |}.
Definition rent : Transaction :=
  {| Name := "Rent"; Amount := 90000; Type_ := Withdraw; Date := 2 |}.
Definition home : Database :=
  {| DatabaseName := "Home"; Transactions := [salary; rent] |}.

Definition wd50 : Transaction :=
  {| Name := "a"; Amount := 50; Type_ := Withdraw; Date := 0 |}.
Definition wd150 : Transaction :=
  {| Name := "b"; Amount := 150; Type_ := Withdraw; Date := 0 |}.
Definition dp200 : Transaction :=
  {| Name := "c"; Amount := 200; Type_ := Deposit; Date := 0 |}.
Definition sample : Database :=
  {| DatabaseName := "Home"; Transactions := [wd50; wd150; dp200] |}.

(* A stand-in for encoding/json on the sample files: the text of a ledger is
   its name and the names of its transactions. *)
Definition marshal (database : Database) : string * option Error :=
  (foldl (λ acc t, acc +:+ "," +:+ Name t) (DatabaseName database)
         (Transactions database), None).

Definition unmarshal (data : string) (v : Database) : Database * option Error :=
  if String.eqb data "Home" then (NewDatabase "Home", None)
  else (v, Some (JSONError "invalid character")).

Definition path : string := "/home/user/.trdb".

Definition fileOf (data : string) (w : bool) : File :=
  {| content := data; readable := true; writable := w |}.

Definition diskOf (data : string) (w : bool) : FileSystem :=
  {| files := {[ path := fileOf data w ]}; creatable := w |}.

End Demo.

(* A second stand-in for encoding/json, which reads back the three sample
   files that [Demo.marshal] writes. *)
Module Demo2.
Import Db.

Definition unmarshal (data : string) (v : Database) : Database * option Error :=
  if String.eqb data "Home" then (NewDatabase "Home", None)
  else if String.eqb data "Home,Salary" then
    ({| DatabaseName := "Home"; Transactions := [Demo.salary] |}, None)
  else if String.eqb data "Home,Salary,Rent" then (Demo.home, None)
  else (v, Some (JSONError "invalid character")).

End Demo2.

(** ** The environment of a run *)
Module Env.
Import Db.

(* The text holds no number where Parse starts to scan: after the white
   space in front there is a newline, nothing, or a byte that is neither a
   sign nor a digit. *)
Definition startsNoNumber (in_ : string) : Prop :=
  match Fmt.SkipSpace in_ with
  | None => True
  | Some EmptyString => True
  | Some (String c _) => Fmt.isSign c = false ∧ Fmt.isDecimalDigit c = false
  end.

(* The path can be written and read back: the file is there with both
   permissions, or it is not there and may be created. *)
Definition usable (path : string) (fs : FileSystem) : Prop :=
  match files fs !! path with
  | Some f => readable f = true ∧ writable f = true
  | None => creatable fs = true
  end.

(* What a transaction counts for in a balance: minus its amount for a
   withdrawal, its amount for a deposit, nothing for another kind. *)
Definition signedAmount (transact : Transaction) : Z :=
  if String.eqb (Type_ transact) Withdraw then - Amount transact
  else if String.eqb (Type_ transact) Deposit then Amount transact
  else 0.

Definition signedSum (transactions : list Transaction) : Z :=
  foldr (λ transact s, signedAmount transact + s) 0 transactions.

Definition newline : string := String "010"%char EmptyString.

(* The text is ASCII: every byte is below utf8.RuneSelf, and is a rune by
   itself. *)
Fixpoint isASCII (s : string) : bool :=
  match s with
  | EmptyString => true
  | String c rest => (N_of_ascii c <? 128)%N && isASCII rest
  end.

(* The text has no newline. *)
Fixpoint oneLine (s : string) : bool :=
  match s with
  | EmptyString => true
  | String c rest => negb (Fmt.isNewline c) && oneLine rest
  end.

(* The ledger as the table shows it when nothing is left out: every
   transaction with its index. *)
Definition numbered (transactions : list Transaction) : list (Z * Transaction) :=
  imap (λ i transact, (Z.of_nat i, transact)) transactions.

End Env.

(* ================================================================== *)
(** * Properties *)

Import Db.

(** ** The ledger: Store, Read, Delete *)

Lemma wrap_small z : GoInt.is_int z → GoInt.wrap z = z.
Proof.
  unfold GoInt.is_int, GoInt.wrap, GoInt.minInt, GoInt.maxInt. intros H.
  rewrite Z.mod_small; lia.
Qed.

Lemma wrap_wrap_add (a b : Z) : GoInt.wrap (GoInt.wrap a + b) = GoInt.wrap (a + b).
Proof.
  unfold GoInt.wrap. f_equal.
  replace ((a + 2 ^ 63) mod 2 ^ 64 - 2 ^ 63 + b + 2 ^ 63)
    with ((a + 2 ^ 63) mod 2 ^ 64 + b) by lia.
  rewrite Zplus_mod_idemp_l. f_equal. lia.
Qed.

Lemma index_lookup {A} (s : list A) (i : Z) :
  0 <= i < Z.of_nat (length s) → index s i = s !! Z.to_nat i.
Proof.
  intros H. unfold index.
  destruct (Z.ltb_spec i 0); [lia|].
  destruct (Z.leb_spec (Z.of_nat (length s)) i); [lia|]. reflexivity.
Qed.

Lemma index_out {A} (s : list A) (i : Z) :
  ¬ (0 <= i < Z.of_nat (length s)) → index s i = None.
Proof.
  intros H. unfold index.
  destruct (Z.ltb_spec i 0); [reflexivity|].
  destruct (Z.leb_spec (Z.of_nat (length s)) i); [reflexivity|lia].
Qed.

Lemma index_is_Some {A} (s : list A) (i : Z) :
  0 <= i < Z.of_nat (length s) → ∃ x, index s i = Some x ∧ s !! Z.to_nat i = Some x.
Proof.
  intros H. rewrite index_lookup by done.
  destruct (lookup_lt_is_Some_2 s (Z.to_nat i)) as [x Hx]; [lia|].
  exists x. by rewrite Hx.
Qed.

Lemma bounds_check_in (ID n : Z) :
  0 <= ID < n → (ID <? 0) || (ID >=? n) = false.
Proof.
  intros H. destruct (Z.ltb_spec ID 0); [lia|].
  destruct (Z.geb_spec ID n); [lia|]. reflexivity.
Qed.

Lemma bounds_check_out (ID n : Z) :
  ¬ (0 <= ID < n) → (ID <? 0) || (ID >=? n) = true.
Proof.
  intros H. destruct (Z.ltb_spec ID 0); [reflexivity|].
  destruct (Z.geb_spec ID n); [reflexivity|lia].
Qed.

Lemma Read_in (db : Database) (ID : Z) (t : Transaction) :
  0 <= ID → Transactions db !! Z.to_nat ID = Some t →
  Database_Read db ID = Some (t, None).
Proof.
  intros H0 Ht. assert (0 <= ID < Database_Size db) as Hin.
  { apply lookup_lt_Some in Ht. unfold Database_Size. lia. }
  unfold Database_Read. rewrite bounds_check_in by done.
  rewrite index_lookup by done. by rewrite Ht.
Qed.

Lemma Read_out (db : Database) (ID : Z) :
  ¬ (0 <= ID < Database_Size db) →
  Database_Read db ID = Some (zeroTransaction, Some errTransactionNotFound).
Proof. intros H. unfold Database_Read. by rewrite bounds_check_out. Qed.

(** C2. [Read(id)] returns the transaction stored at index [id], without
    error, exactly when [0 <= id < Size()]; for every other [id] it returns
    the error [errTransactionNotFound]. It never panics and it returns no
    other error. *)
Theorem Read_spec (db : Database) (ID : Z) :
  (0 <= ID < Database_Size db →
     ∃ t, Transactions db !! Z.to_nat ID = Some t ∧
          Database_Read db ID = Some (t, None)) ∧
  (¬ (0 <= ID < Database_Size db) →
     Database_Read db ID = Some (zeroTransaction, Some errTransactionNotFound)) ∧
  ((∃ t, Database_Read db ID = Some (t, None)) ↔ 0 <= ID < Database_Size db) ∧
  (∀ t e, Database_Read db ID = Some (t, Some e) → e = errTransactionNotFound) ∧
  is_Some (Database_Read db ID).
Proof.
  assert (0 <= ID < Database_Size db →
     ∃ t, Transactions db !! Z.to_nat ID = Some t ∧
          Database_Read db ID = Some (t, None)) as Hin.
  { intros H. destruct (index_is_Some (Transactions db) ID H) as (t & _ & Ht).
    exists t. split; [done|]. apply Read_in; [lia|done]. }
  destruct (decide (0 <= ID < Database_Size db)) as [H|H].
  - destruct (Hin H) as (t & Ht & HR).
    split; [done|]. split; [done|]. split; [|split].
    + split; [done|]. intros _. by exists t.
    + intros t' e. rewrite HR. congruence.
    + rewrite HR. eauto.
  - pose proof (Read_out db ID H) as HR.
    split; [done|]. split; [done|]. split; [|split].
    + split; [|done]. intros [t Ht]. rewrite HR in Ht. congruence.
    + intros t e. rewrite HR. congruence.
    + rewrite HR. eauto.
Qed.

Lemma Delete_in (db : Database) (ID : Z) :
  Database_Size db <= GoInt.maxInt → 0 <= ID < Database_Size db →
  Database_Delete db ID =
    Some ({| DatabaseName := DatabaseName db;
             Transactions := delete (Z.to_nat ID) (Transactions db) |}, None).
Proof.
  intros Hlen H. unfold Database_Delete. rewrite bounds_check_in by done.
  unfold Database_Size in *.
  assert (GoInt.add ID 1 = ID + 1) as ->.
  { apply wrap_small. unfold GoInt.is_int, GoInt.minInt in *. lia. }
  unfold slice_to, slice_from.
  destruct (Z.ltb_spec ID 0); [lia|].
  destruct (Z.ltb_spec (Z.of_nat (length (Transactions db))) ID); [lia|].
  destruct (Z.ltb_spec (ID + 1) 0); [lia|].
  destruct (Z.ltb_spec (Z.of_nat (length (Transactions db))) (ID + 1)); [lia|].
  simpl. rewrite delete_take_drop.
  replace (Z.to_nat (ID + 1)) with (S (Z.to_nat ID)) by lia. reflexivity.
Qed.

Lemma Delete_out (db : Database) (ID : Z) :
  ¬ (0 <= ID < Database_Size db) →
  Database_Delete db ID = Some (db, Some errTransactionNotFound).
Proof. intros H. unfold Database_Delete. by rewrite bounds_check_out. Qed.

(** C1. On a ledger (a Go slice, so its length is an [int]) and an index
    [0 <= i < Size()], [Delete(i)] returns no error, removes the transaction
    at [i], leaves the transactions below [i] in place, moves every
    transaction at an index [j > i] to [j-1], and makes [Size()] one less;
    for [i < 0] or [i >= Size()] it returns [errTransactionNotFound] and the
    ledger is unchanged. *)
Theorem Delete_spec (db : Database) (ID : Z) :
  Database_Size db <= GoInt.maxInt →
  (0 <= ID < Database_Size db →
     ∃ db', Database_Delete db ID = Some (db', None) ∧
       DatabaseName db' = DatabaseName db ∧
       Transactions db' = delete (Z.to_nat ID) (Transactions db) ∧
       Database_Size db' = Database_Size db - 1 ∧
       (∀ j, 0 <= j < ID → Database_Read db' j = Database_Read db j) ∧
       (∀ j, ID < j < Database_Size db →
             Database_Read db' (j - 1) = Database_Read db j)) ∧
  (¬ (0 <= ID < Database_Size db) →
     Database_Delete db ID = Some (db, Some errTransactionNotFound)).
Proof.
  intros Hlen. split; [|apply Delete_out].
  intros H. eexists. split; [by apply Delete_in|]. simpl.
  assert (length (delete (Z.to_nat ID) (Transactions db))
          = pred (length (Transactions db))) as Hl.
  { unfold Database_Size in H. rewrite length_delete; [lia|].
    apply lookup_lt_is_Some_2. lia. }
  split; [done|]. split; [done|].
  split; [unfold Database_Size in *; simpl; lia|].
  split.
  - intros j Hj.
    destruct (index_is_Some (Transactions db) j) as (t & _ & Ht).
    { unfold Database_Size in H. lia. }
    rewrite (Read_in db j t) by (done || lia).
    apply Read_in; [lia|]. simpl.
    rewrite list_lookup_delete_lt by lia. done.
  - intros j Hj.
    destruct (index_is_Some (Transactions db) j) as (t & _ & Ht).
    { unfold Database_Size in Hj. lia. }
    rewrite (Read_in db j t) by (done || lia).
    apply Read_in; [lia|]. simpl.
    rewrite list_lookup_delete_ge by lia.
    replace (S (Z.to_nat (j - 1))) with (Z.to_nat j) by lia. done.
Qed.

Lemma Delete_spec_witness :
  Database_Delete Demo.home 0
  = Some ({| DatabaseName := "Home"; Transactions := [Demo.rent] |}, None).
Proof.
  destruct (Delete_spec Demo.home 0) as [Hin _]; [vm_compute; congruence|].
  destruct Hin as (db' & HD & Hn & Ht & _); [vm_compute; split; congruence|].
  rewrite HD. destruct db' as [n l]. simpl in *. by rewrite Hn, Ht.
Defined.

(** C8. [Store(t)] is a total function without error result: it appends [t]
    at the end, so that [t] is read back at the index that was [Size()]
    before, the transactions already there keep their indices and [Size()]
    grows by one. On an empty ledger, [Store(t)] then [Read(0)] returns [t]
    and [Size()] is 1. *)
Theorem Store_spec (db : Database) (t : Transaction) :
  Transactions (Database_Store db t) = Transactions db ++ [t] ∧
  DatabaseName (Database_Store db t) = DatabaseName db ∧
  Database_Size (Database_Store db t) = Database_Size db + 1 ∧
  Database_Read (Database_Store db t) (Database_Size db) = Some (t, None) ∧
  (∀ j, 0 <= j < Database_Size db →
        Database_Read (Database_Store db t) j = Database_Read db j) ∧
  (∀ name, Database_Read (Database_Store (NewDatabase name) t) 0 = Some (t, None) ∧
           Database_Size (Database_Store (NewDatabase name) t) = 1).
Proof.
  split; [done|]. split; [done|].
  split. { unfold Database_Size, Database_Store. simpl. rewrite length_app. simpl. lia. }
  split.
  { apply Read_in; [unfold Database_Size; lia|]. simpl.
    unfold Database_Size. rewrite Nat2Z.id. by rewrite list_lookup_middle. }
  split.
  { intros j Hj.
    destruct (index_is_Some (Transactions db) j Hj) as (x & _ & Hx).
    rewrite (Read_in db j x) by (done || lia).
    apply Read_in; [lia|]. simpl. rewrite lookup_app_l; [done|].
    unfold Database_Size in Hj. lia. }
  intros name. split; reflexivity.
Qed.

(** ** Printing and scanning integers *)

Section FmtFacts.
Import Fmt.

Lemma app_cons (c : ascii) (s t : string) : String c s +:+ t = String c (s +:+ t).
Proof. reflexivity. Qed.

Lemma app_empty_l (t : string) : "" +:+ t = t.
Proof. reflexivity. Qed.

Lemma app_empty_r (s : string) : s +:+ "" = s.
Proof. induction s as [|c s IH]; [done|]. by rewrite app_cons, IH. Qed.

Lemma app_assoc_s (s t u : string) : (s +:+ t) +:+ u = s +:+ (t +:+ u).
Proof. induction s as [|c s IH]; [done|]. by rewrite !app_cons, IH. Qed.

Lemma length_app_s (s t : string) :
  String.length (s +:+ t) = (String.length s + String.length t)%nat.
Proof. induction s as [|c s IH]; [done|]. rewrite app_cons. simpl. by rewrite IH. Qed.

Lemma digit_cases (d : Z) :
  0 <= d < 10 →
  d = 0 ∨ d = 1 ∨ d = 2 ∨ d = 3 ∨ d = 4 ∨ d = 5 ∨ d = 6 ∨ d = 7 ∨ d = 8 ∨ d = 9.
Proof. lia. Qed.

Lemma digitChar_isDigit (d : Z) : 0 <= d < 10 → isDigit (digitChar d) = true.
Proof. intros H. destruct (digit_cases d H) as [->|[->|[->|[->|[->|[->|[->|[->|[->| ->]]]]]]]]]; reflexivity. Qed.

Lemma digitVal_digitChar (d : Z) : 0 <= d < 10 → digitVal (digitChar d) = d.
Proof. intros H. destruct (digit_cases d H) as [->|[->|[->|[->|[->|[->|[->|[->|[->| ->]]]]]]]]]; reflexivity. Qed.

Lemma isDigit_not_sign (c : ascii) : isDigit c = true → isSign c = false.
Proof.
  unfold isDigit, isSign. intros H.
  destruct (Ascii.eqb_spec c "+") as [->|_]; [done|].
  destruct (Ascii.eqb_spec c "-") as [->|_]; done.
Qed.

Lemma isDigit_not_newline (c : ascii) : isDigit c = true → isNewline c = false.
Proof.
  unfold isDigit, isNewline. intros [H1 H2]%andb_prop.
  apply N.leb_le in H1. apply N.eqb_neq. lia.
Qed.

Lemma isDigit_not_space (c : ascii) : isDigit c = true → isSpace c = false.
Proof.
  unfold isDigit, isSpace. intros [H1 H2]%andb_prop.
  apply N.leb_le in H1. apply N.leb_le in H2.
  repeat (apply orb_false_intro); apply N.eqb_neq; lia.
Qed.

Lemma parseDigits_app (s t : string) : ∀ n,
  parseDigits n (s +:+ t) = parseDigits n s ≫= λ m, parseDigits m t.
Proof.
  induction s as [|c s IH]; intros n; [done|].
  rewrite app_cons. simpl. destruct (isDigit c); [apply IH|done].
Qed.

Lemma allDigits_app (s t : string) :
  allDigits (s +:+ t) = allDigits s && allDigits t.
Proof.
  induction s as [|c s IH]; [done|].
  rewrite app_cons. simpl. rewrite IH. by rewrite andb_assoc.
Qed.

(* The buffer is only written in front. *)
Lemma fmtDigits_buf (fuel : nat) : ∀ u buf,
  fmtDigits (S fuel) u buf = fmtDigits (S fuel) u "" +:+ buf.
Proof.
  induction fuel as [|fuel IH]; intros u buf.
  - simpl. destruct (10 <=? u); reflexivity.
  - change (fmtDigits (S (S fuel)) u buf) with
      (if 10 <=? u
       then fmtDigits (S fuel) (u / 10) (String (digitChar (u - u / 10 * 10)) buf)
       else String (digitChar u) buf).
    change (fmtDigits (S (S fuel)) u "") with
      (if 10 <=? u
       then fmtDigits (S fuel) (u / 10) (String (digitChar (u - u / 10 * 10)) "")
       else String (digitChar u) "").
    destruct (10 <=? u); [|reflexivity].
    rewrite (IH _ (String _ buf)), (IH _ (String _ "")).
    by rewrite app_assoc_s.
Qed.

(* With fuel for the bits of [u], the digit loop ends by itself and writes
   the decimal digits of [u]. *)
Lemma fmtDigits_spec (fuel : nat) : ∀ u,
  0 <= u < 2 ^ (Z.of_nat fuel + 1) →
  let ds := fmtDigits (S fuel) u "" in
  allDigits ds = true ∧ ds ≠ "" ∧
  ∀ n, parseDigits n ds = Some (n * 10 ^ Z.of_nat (String.length ds) + u).
Proof.
  induction fuel as [|fuel IH]; intros u Hu.
  - assert (u = 0 ∨ u = 1) as [-> | ->] by (simpl in Hu; lia);
      (split; [reflexivity|]; split; [done|]; intros n; simpl;
       f_equal; unfold digitVal; simpl; lia).
  - cbv zeta.
    change (fmtDigits (S (S fuel)) u "") with
      (if 10 <=? u
       then fmtDigits (S fuel) (u / 10) (String (digitChar (u - u / 10 * 10)) "")
       else String (digitChar u) "").
    destruct (Z.leb_spec 10 u) as [H10|H10].
    + rewrite fmtDigits_buf.
      assert (0 <= u / 10 < 2 ^ (Z.of_nat fuel + 1)) as Hq.
      { split; [apply Z.div_pos; lia|].
        apply Z.div_lt_upper_bound; [lia|].
        replace (Z.of_nat (S fuel) + 1) with (Z.succ (Z.of_nat fuel + 1)) in Hu by lia.
        rewrite Z.pow_succ_r in Hu by lia. lia. }
      destruct (IH (u / 10) Hq) as (Hd & Hne & Hv). cbv zeta in *.
      set (ds := fmtDigits (S fuel) (u / 10) "") in *.
      assert (0 <= u - u / 10 * 10 < 10) as Hr.
      { pose proof (Z.mod_pos_bound u 10). pose proof (Z.div_mod u 10). lia. }
      split; [|split].
      * rewrite allDigits_app, Hd. simpl. by rewrite digitChar_isDigit.
      * destruct ds; [done|]. by rewrite app_cons.
      * intros n. rewrite parseDigits_app, Hv. simpl.
        rewrite digitChar_isDigit by done. f_equal.
        rewrite digitVal_digitChar by done.
        rewrite length_app_s. simpl.
        replace (Z.of_nat (String.length ds + 1)) with (Z.succ (Z.of_nat (String.length ds))) by lia.
        rewrite Z.pow_succ_r by lia. lia.
    + assert (0 <= u < 10) as Hr by lia.
      split; [|split].
      * simpl. by rewrite digitChar_isDigit.
      * done.
      * intros n. simpl. rewrite digitChar_isDigit by done.
        rewrite digitVal_digitChar by done. f_equal; lia.
Qed.

Lemma digitsFuel_enough (u : Z) :
  0 <= u → 0 <= u < 2 ^ (Z.of_nat (Z.to_nat (Z.log2 u)) + 1).
Proof.
  intros H. split; [done|].
  rewrite Z2Nat.id by apply Z.log2_nonneg.
  destruct (decide (u = 0)) as [->|Hne]; [reflexivity|].
  pose proof (Z.log2_spec u). replace (Z.log2 u + 1) with (Z.succ (Z.log2 u)) by lia. lia.
Qed.

Lemma decimal_spec (u : Z) :
  0 <= u →
  allDigits (decimal u) = true ∧ decimal u ≠ "" ∧
  parseDigits 0 (decimal u) = Some u.
Proof.
  intros H. unfold decimal, digitsFuel.
  destruct (fmtDigits_spec _ u (digitsFuel_enough u H)) as (Hd & Hne & Hv).
  cbv zeta in *. split; [done|]. split; [done|]. rewrite Hv. f_equal; lia.
Qed.

Lemma fmtInteger_plain (v : Z) :
  fmtInteger false None v
  = if v <? 0 then String "-" (decimal (- v)) else decimal v.
Proof. unfold fmtInteger, decimal. destruct (v <? 0); reflexivity. Qed.

End FmtFacts.

Section ScanFacts.
Import Fmt.

Lemma acceptRun_digits (ds rest : string) :
  allDigits ds = true → stops rest →
  acceptRun isDecimalDigit None (ds +:+ rest) = (ds, rest).
Proof.
  intros Hd Hs. induction ds as [|c ds IH].
  - rewrite app_empty_l. destruct rest as [|c r]; [done|].
    simpl in *. by rewrite Hs.
  - simpl in Hd. apply andb_prop in Hd as [Hc Hd].
    rewrite app_cons. simpl. unfold isDecimalDigit at 1. rewrite Hc. simpl.
    by rewrite (IH Hd).
Qed.

Lemma acceptRun_two (d1 d2 : ascii) (rest : string) :
  isDigit d1 = true → isDigit d2 = true →
  acceptRun isDecimalDigit (Some 2%nat) (String d1 (String d2 rest))
  = (String d1 (String d2 ""), rest).
Proof.
  intros H1 H2. simpl. unfold isDecimalDigit. rewrite H1, H2. simpl.
  by destruct rest.
Qed.

(* A white rune of two or three bytes starts with a byte above the ASCII
   bytes. *)
Lemma isSpace2_ascii (c1 c2 : ascii) :
  (N_of_ascii c1 < 128)%N → Utf8.isSpace2 c1 c2 = false.
Proof.
  intros H. unfold Utf8.isSpace2.
  destruct (N.eqb_spec (N_of_ascii c1) 194); [lia|done].
Qed.

Lemma isSpace3_ascii (c1 c2 c3 : ascii) :
  (N_of_ascii c1 < 128)%N → Utf8.isSpace3 c1 c2 c3 = false.
Proof.
  intros H. unfold Utf8.isSpace3.
  destruct (N.eqb_spec (N_of_ascii c1) 225); [lia|].
  destruct (N.eqb_spec (N_of_ascii c1) 226); [lia|].
  destruct (N.eqb_spec (N_of_ascii c1) 227); [lia|done].
Qed.

(* An ASCII byte that is no white space stops the skipping. *)
Lemma SkipSpace_ascii (c : ascii) (s : string) :
  isNewline c = false → isSpace c = false → (N_of_ascii c < 128)%N →
  SkipSpace (String c s) = Some (String c s).
Proof.
  intros Hn Hs Hc. cbn [SkipSpace]. rewrite Hn, Hs.
  destruct s as [|c2 [|c3 s]]; [done| |].
  - by rewrite isSpace2_ascii.
  - by rewrite isSpace2_ascii, isSpace3_ascii.
Qed.

Lemma isDigit_ascii (c : ascii) : isDigit c = true → (N_of_ascii c < 128)%N.
Proof.
  unfold isDigit. intros [H1 H2]%andb_prop. apply N.leb_le in H2. lia.
Qed.

Lemma SkipSpace_digit (c : ascii) (s : string) :
  isDigit c = true → SkipSpace (String c s) = Some (String c s).
Proof.
  intros H. apply SkipSpace_ascii;
    [by apply isDigit_not_newline|by apply isDigit_not_space|by apply isDigit_ascii].
Qed.

Lemma SkipSpace_minus (s : string) : SkipSpace (String "-" s) = Some (String "-" s).
Proof. by apply SkipSpace_ascii. Qed.

Lemma ParseInt_decimal (u : Z) :
  0 <= u <= GoInt.maxInt → ParseInt (decimal u) = inl u.
Proof.
  intros Hu. destruct (decimal_spec u) as (Hd & Hne & Hv); [lia|].
  destruct (decimal u) as [|c ds] eqn:E; [done|].
  simpl in Hd. apply andb_prop in Hd as [Hc Hd].
  pose proof (isDigit_not_sign c Hc) as Hs. unfold isSign in Hs.
  apply orb_false_elim in Hs as [Hp Hm].
  unfold ParseInt. rewrite Hp, Hm, Hv. simpl.
  destruct (Z.leb_spec (2 ^ 63) u); [unfold GoInt.maxInt in Hu; lia|done].
Qed.

Lemma ParseInt_minus_decimal (u : Z) :
  0 < u <= 2 ^ 63 → ParseInt (String "-" (decimal u)) = inl (- u).
Proof.
  intros Hu. destruct (decimal_spec u) as (Hd & Hne & Hv); [lia|].
  unfold ParseInt. simpl.
  destruct (decimal u) as [|c ds] eqn:E; [done|]. rewrite Hv.
  destruct (Z.ltb_spec (2 ^ 63) u); [lia|done].
Qed.

Local Arguments acceptRun : simpl never.
Local Arguments ParseInt : simpl never.

(* Scanning [%d] reads back what [%d] printed, when the text goes on with
   something that is no digit. *)
Lemma scanInt_fmtInteger (m : Z) (rest : string) :
  GoInt.is_int m → stops rest →
  scanInt None (fmtInteger false None m +:+ rest) = inl (m, rest).
Proof.
  intros Hm Hs. rewrite fmtInteger_plain.
  unfold GoInt.is_int, GoInt.minInt, GoInt.maxInt in Hm.
  destruct (Z.ltb_spec m 0) as [Hneg|Hpos].
  - destruct (decimal_spec (- m)) as (Hd & Hne & Hv); [lia|].
    pose proof (ParseInt_minus_decimal (- m)) as HP.
    destruct (decimal (- m)) as [|c ds] eqn:E; [done|].
    rewrite !app_cons. unfold scanInt. simpl.
    rewrite <- app_cons, acceptRun_digits by done.
    change ("-" +:+ String c ds) with (String "-" (String c ds)).
    rewrite HP by lia. by replace (- - m) with m by lia.
  - destruct (decimal_spec m) as (Hd & Hne & Hv); [lia|].
    pose proof (ParseInt_decimal m) as HP.
    destruct (decimal m) as [|c ds] eqn:E; [done|].
    pose proof Hd as Hd'. simpl in Hd'. apply andb_prop in Hd' as [Hc _].
    rewrite app_cons. unfold scanInt. simpl.
    rewrite (isDigit_not_sign c Hc). simpl.
    rewrite <- app_cons, acceptRun_digits by done.
    rewrite app_empty_l, HP by (unfold GoInt.maxInt; lia). done.
Qed.

Lemma scanInt_two (d1 d2 : ascii) (rest : string) :
  isDigit d1 = true → isDigit d2 = true →
  scanInt (Some 2%nat) (String d1 (String d2 rest))
  = inl (digitVal d1 * 10 + digitVal d2, rest).
Proof.
  intros H1 H2. unfold scanInt.
  change (atEOF (Some 2%nat) (String d1 (String d2 rest))) with false.
  cbv iota. rewrite (isDigit_not_sign d1 H1).
  change (atEOF (Some 2%nat) (String d1 (String d2 rest))) with false.
  cbv iota. rewrite acceptRun_two by done.
  pose proof (isDigit_not_sign d1 H1) as Hs. unfold isSign in Hs.
  apply orb_false_elim in Hs as [Hp Hm].
  rewrite app_empty_l. unfold ParseInt. rewrite Hp, Hm. simpl.
  rewrite H1, H2.
  assert (0 <= digitVal d1 < 10 ∧ 0 <= digitVal d2 < 10) as [Hv1 Hv2].
  { unfold isDigit, digitVal in *.
    apply andb_prop in H1 as [?%N.leb_le ?%N.leb_le].
    apply andb_prop in H2 as [?%N.leb_le ?%N.leb_le]. lia. }
  replace ((0 * 10 + digitVal d1) * 10 + digitVal d2)
    with (digitVal d1 * 10 + digitVal d2) by lia.
  destruct (Z.leb_spec (2 ^ 63) (digitVal d1 * 10 + digitVal d2)); [lia|done].
Qed.

Lemma doScanf_no_operands (ds : list directive) : ∀ src, (doScanf ds src []).1 = [].
Proof.
  induction ds as [|d ds IH]; intros src; [done|].
  destruct d as [c|zero wid verb|]; simpl.
  - destruct src as [|c' r]; [done|]. destruct (Ascii.eqb c c'); [apply IH|done].
  - destruct (Ascii.eqb verb "%").
    + destruct src as [|c' r]; [done|]. destruct (Ascii.eqb c' "%"); [apply IH|done].
    + by destruct (SkipSpace src).
  - done.
Qed.

End ScanFacts.

(** ** Money: rendering and parsing *)

Section MoneyFacts.
Import Fmt.

Lemma Value_String_unfold (v : Value) :
  Value_String v
  = fmtInteger false None (GoInt.quo v 100)
    +:+ String "." (fmtInteger true (Some 2%nat) (abs (GoInt.rem v 100)) +:+ "â‚¬").
Proof. reflexivity. Qed.

Lemma fmtInteger_two (r : Z) :
  0 <= r < 100 →
  fmtInteger true (Some 2%nat) r
  = String (digitChar (r / 10)) (String (digitChar (r mod 10)) "").
Proof.
  intros H.
  assert (Forall (λ r, fmtInteger true (Some 2%nat) r
                       = String (digitChar (r / 10)) (String (digitChar (r mod 10)) ""))
                 (seqZ 0 100)) as HF.
  { apply (bool_decide_unpack _). vm_compute. reflexivity. }
  rewrite Forall_forall in HF. apply HF. apply elem_of_seqZ. lia.
Qed.

Lemma abs_rem (v : Value) :
  abs (GoInt.rem v 100) = Z.abs (Z.rem v 100) ∧ 0 <= Z.abs (Z.rem v 100) < 100.
Proof.
  unfold abs, GoInt.rem, GoInt.neg, ZeroValue.
  pose proof (Z.rem_bound_abs v 100). 
  assert (Z.abs (Z.rem v 100) < 100) as Hb by (apply Z.rem_bound_abs; lia).
  split; [|lia].
  destruct (Z.ltb_spec (Z.rem v 100) 0).
  - rewrite wrap_small; [lia|]. unfold GoInt.is_int, GoInt.minInt, GoInt.maxInt. lia.
  - lia.
Qed.

Lemma quo_small (v : Value) : GoInt.is_int v → GoInt.quo v 100 = Z.quot v 100 ∧ GoInt.is_int (Z.quot v 100).
Proof.
  intros H. unfold GoInt.quo.
  assert (GoInt.is_int (Z.quot v 100)) as Hq.
  { unfold GoInt.is_int, GoInt.minInt, GoInt.maxInt in *.
    pose proof (Z.quot_rem v 100). pose proof (Z.rem_bound_abs v 100).
    assert (Z.abs (Z.rem v 100) < 100) by (apply Z.rem_bound_abs; lia). lia. }
  by rewrite wrap_small.
Qed.

Lemma fst_let_pair {A B C} (x : A * B) (f : A → C) :
  (let '(a, e) := x in (f a, e)).1 = f x.1.
Proof. by destruct x. Qed.

(* Parse on a text of the shape that Value.String writes. *)
Lemma Parse_rendered (maj r : Z) :
  GoInt.is_int maj → 0 <= r < 100 →
  Parse (fmtInteger false None maj
         +:+ String "." (fmtInteger true (Some 2%nat) r +:+ "â‚¬"))
  = GoInt.wrap (maj * 100 + r).
Proof.
  intros Hmaj Hr. rewrite fmtInteger_two by done.
  assert (0 <= r / 10 < 10) as Hd1.
  { split; [apply Z.div_pos; lia|apply Z.div_lt_upper_bound; lia]. }
  assert (0 <= r mod 10 < 10) as Hd2 by (apply Z.mod_pos_bound; lia).
  set (d1 := digitChar (r / 10)). set (d2 := digitChar (r mod 10)).
  assert ((Sscanf (fmtInteger false None maj +:+ String "." (String d1 (String d2 "") +:+ "â‚¬"))
            (Format DefaultCurrency) [0; 0]).1 = [maj; r]) as HS.
  { unfold Sscanf.
    change (parseFormat Text (Format DefaultCurrency)) with
      (Verb false None "d" :: Lit "." :: Verb true (Some 2%nat) "d"
         :: parseFormat Text "â‚¬").
    set (tail := parseFormat Text "â‚¬").
    set (src := fmtInteger false None maj +:+ _).
    assert (SkipSpace src = Some src) as Hskip.
    { subst src. rewrite fmtInteger_plain.
      destruct (Z.ltb_spec maj 0); [rewrite app_cons; apply SkipSpace_minus|].
      destruct (decimal_spec maj) as (Hd & Hne & _); [done|].
      destruct (decimal maj) as [|c ds]; [done|].
      simpl in Hd. apply andb_prop in Hd as [Hc _].
      rewrite app_cons. by apply SkipSpace_digit. }
    cbn [doScanf Ascii.eqb Bool.eqb]. rewrite Hskip. cbn [scanWidth].
    subst src. rewrite scanInt_fmtInteger by done.
    rewrite fst_let_pair. f_equal.
    cbn [doScanf Ascii.eqb Bool.eqb fst].
    rewrite !app_cons.
    rewrite SkipSpace_digit by (by apply digitChar_isDigit).
    rewrite scanInt_two by (by apply digitChar_isDigit).
    rewrite fst_let_pair, doScanf_no_operands. subst d1 d2.
    rewrite !digitVal_digitChar by done. f_equal.
    pose proof (Z.div_mod r 10). lia. }
  unfold Parse. rewrite HS. simpl.
  change (Ratio DefaultCurrency) with 100.
  unfold GoInt.add, GoInt.mul, GoInt.rem.
  rewrite Z.rem_small by lia. apply wrap_wrap_add.
Qed.


(* What Parse makes of a rendered value: the major part times the ratio,
   plus the magnitude of the minor part. *)
Lemma Parse_String (v : Value) :
  GoInt.is_int v →
  Parse (Value_String v) = Z.quot v 100 * 100 + Z.abs (Z.rem v 100).
Proof.
  intros Hv. rewrite Value_String_unfold.
  destruct (quo_small v Hv) as [-> Hq].
  destruct (abs_rem v) as [-> Hr].
  rewrite Parse_rendered by done.
  apply wrap_small.
  unfold GoInt.is_int, GoInt.minInt, GoInt.maxInt in *.
  assert (100 ≠ 0) as H100 by lia.
  pose proof (Z.quot_rem v 100 H100).
  destruct (Z.le_gt_cases 0 v) as [Hpos|Hneg].
  - pose proof (Z.rem_nonneg v 100 H100 Hpos). lia.
  - pose proof (Z.rem_nonpos v 100 H100 ltac:(lia)). lia.
Qed.

(** C3, as the code has it. For a Value [v] (a Go int), parsing the rendered
    text of [v] gives [v] back exactly when [v] is not negative or is a
    multiple of the ratio; for the other negative values the result is
    [v - 2 * (v rem ratio)], the major part with the magnitude of the minor
    part added. *)
Theorem Parse_String_roundtrip (v : Value) :
  GoInt.is_int v →
  (Parse (Value_String v) = v ↔ 0 <= v ∨ Z.rem v (Ratio DefaultCurrency) = 0) ∧
  Parse (Value_String v) = v - 2 * Z.min 0 (Z.rem v (Ratio DefaultCurrency)).
Proof.
  intros Hv. rewrite (Parse_String v Hv). change (Ratio DefaultCurrency) with 100.
  pose proof (Z.quot_rem v 100) as Hqr.
  assert (100 ≠ 0) as H100 by lia. specialize (Hqr H100).
  destruct (Z.le_gt_cases 0 v) as [Hpos|Hneg].
  - pose proof (Z.rem_nonneg v 100 H100 Hpos). split; [split; [auto|]|]; lia.
  - pose proof (Z.rem_nonpos v 100 H100 ltac:(lia)). split; [split|]; lia.
Qed.

Lemma Parse_String_roundtrip_witness :
  Parse (Value_String 12345) = 12345 ∧ Parse (Value_String (-150)) = -50.
Proof.
  split.
  - destruct (Parse_String_roundtrip 12345) as [[_ H] _];
      [vm_compute; split; congruence|].
    apply H. left. lia.
  - destruct (Parse_String_roundtrip (-150)) as [_ H];
      [vm_compute; split; congruence|].
    rewrite H. reflexivity.
Defined.

(** C3, as stated, fails on the code: the value of minus five minor units
    renders as "0.05" with the currency sign, and parses as five. *)
Lemma Parse_String_negative_counterexample :
  GoInt.is_int (-5) ∧ Value_String (-5) = "0.05â‚¬" ∧
  Parse (Value_String (-5)) = 5 ∧ Parse (Value_String (-5)) ≠ -5.
Proof.
  split; [vm_compute; split; congruence|].
  split; [reflexivity|]. split; [reflexivity|]. vm_compute. congruence.
Qed.

(** C4. For every Value [v], negative or not, the text of [v] is the major
    part [v / ratio] printed with [%d], a dot, the magnitude of the minor part
    [v % ratio] as exactly two decimal digits, and the currency sign: the
    minor slot holds no sign. *)
Theorem String_minor_unsigned (v : Value) :
  let r := Z.abs (Z.rem v (Ratio DefaultCurrency)) in
  let d1 := Fmt.digitChar (r / 10) in
  let d2 := Fmt.digitChar (r mod 10) in
  abs (GoInt.rem v (Ratio DefaultCurrency)) = r ∧
  Value_String v
  = Fmt.fmtInteger false None (GoInt.quo v (Ratio DefaultCurrency))
    +:+ String "." (String d1 (String d2 "â‚¬")) ∧
  Fmt.isDigit d1 = true ∧ Fmt.isDigit d2 = true ∧
  d1 ≠ "-"%char ∧ d2 ≠ "-"%char.
Proof.
  cbv zeta. change (Ratio DefaultCurrency) with 100.
  destruct (abs_rem v) as [Ha Hr]. set (r := Z.abs (Z.rem v 100)) in *.
  assert (0 <= r / 10 < 10) as Hd1.
  { split; [apply Z.div_pos; lia|apply Z.div_lt_upper_bound; lia]. }
  assert (0 <= r mod 10 < 10) as Hd2 by (apply Z.mod_pos_bound; lia).
  pose proof (digitChar_isDigit _ Hd1) as H1.
  pose proof (digitChar_isDigit _ Hd2) as H2.
  split; [done|]. split.
  { rewrite Value_String_unfold, Ha, fmtInteger_two by done. reflexivity. }
  split; [done|]. split; [done|].
  split; intros E; [rewrite E in H1|rewrite E in H2]; discriminate.
Qed.

(* The first versions of Value.String printed the sign of the minor part. *)
Lemma Earlier_String_signed_minor :
  Earlier.Value_String (-5) = "0.-5â‚¬" ∧ Earlier.Value_String (-150) = "-1.-50â‚¬" ∧
  Monolith.Value_String (-5) = "0.-5€" ∧ Monolith.Value_String (-150) = "-1.-50€".
Proof. repeat split; reflexivity. Qed.

End MoneyFacts.

(** ** Persistence *)

Section PersistenceFacts.

Variable Marshal : Database → string * option Error.
Variable Unmarshal : string → Database → Database * option Error.
Variable path : string.

(** C5. When the file can be read and its bytes do not deserialize
    ([json.Unmarshal] returns an error), [Open] returns the empty ledger
    [Database{}] (no name, no transactions), whatever Unmarshal had filled in
    before it failed, and the nil error. *)
Theorem Open_undecodable (fs : FileSystem) (bytes : string) :
  ReadFile fs path = (bytes, None) →
  (Unmarshal bytes zeroDatabase).2 ≠ None →
  Open Unmarshal path fs = (zeroDatabase, None) ∧
  DatabaseName zeroDatabase = "" ∧ Transactions zeroDatabase = [] ∧
  Database_Size zeroDatabase = 0.
Proof.
  intros HR HU. unfold Open. rewrite HR.
  destruct (Unmarshal bytes zeroDatabase) as [database [e|]]; simpl in HU; done.
Qed.

Lemma Open_decodable (fs : FileSystem) (bytes : string) (database : Database) :
  ReadFile fs path = (bytes, None) →
  Unmarshal bytes zeroDatabase = (database, None) →
  Open Unmarshal path fs = (database, None).
Proof. intros HR HU. unfold Open. by rewrite HR, HU. Qed.

Lemma Open_unreadable (fs : FileSystem) (bytes : string) (e : Error) :
  ReadFile fs path = (bytes, Some e) →
  Open Unmarshal path fs = (zeroDatabase, Some e).
Proof. intros HR. unfold Open. by rewrite HR. Qed.

Lemma WriteFile_failed (fs : FileSystem) (data : string) (e : Error) :
  (WriteFile fs path data).2 = Some e → (WriteFile fs path data).1 = fs.
Proof.
  unfold WriteFile. destruct (files fs !! path) as [f|].
  - destruct (writable f); [done|]. done.
  - destruct (creatable fs); done.
Qed.

Lemma Write_marshalled (fs : FileSystem) (database : Database) (json : string) :
  Marshal database = (json, None) →
  Write Marshal path fs database = ((WriteFile fs path json).1, None).
Proof. intros HM. unfold Write. rewrite HM. by destruct (WriteFile fs path json). Qed.

(** C6, where the code departs from it. When the ledger serializes and
    [ioutil.WriteFile] fails with an error [e], [Write] still returns the nil
    error, and the file system is as before: nothing was written, and no
    error is reported. *)
Theorem Write_drops_write_error (fs : FileSystem) (database : Database)
    (json : string) (e : Error) :
  Marshal database = (json, None) →
  (WriteFile fs path json).2 = Some e →
  Write Marshal path fs database = (fs, None).
Proof.
  intros HM HW. rewrite (Write_marshalled fs database json HM).
  by rewrite (WriteFile_failed fs json e HW).
Qed.

End PersistenceFacts.

Lemma Open_undecodable_witness :
  Open Demo.unmarshal Demo.path (Demo.diskOf "not a ledger" true)
  = (zeroDatabase, None).
Proof.
  apply (Open_undecodable Demo.unmarshal Demo.path
           (Demo.diskOf "not a ledger" true) "not a ledger").
  - reflexivity.
  - vm_compute. congruence.
Defined.

Lemma Write_drops_write_error_witness :
  (WriteFile (Demo.diskOf "Home" false) Demo.path "Home,Salary,Rent").2
    = Some (PathError "open" Demo.path EACCES) ∧
  Write Demo.marshal Demo.path (Demo.diskOf "Home" false) Demo.home
    = (Demo.diskOf "Home" false, None).
Proof.
  split; [reflexivity|].
  apply (Write_drops_write_error Demo.marshal Demo.path
           (Demo.diskOf "Home" false) Demo.home "Home,Salary,Rent"
           (PathError "open" Demo.path EACCES)); reflexivity.
Defined.

(** ** Two invocations against one file *)

Section ConcurrentFacts.
Import Concurrent.

Variable Marshal : Database → string * option Error.
Variable Unmarshal : string → Database → Database * option Error.
Variable path : string.

Local Abbreviation run := (Concurrent.run Marshal Unmarshal path).
Local Abbreviation alone := (Concurrent.alone Marshal Unmarshal path).

(* An invocation that runs on its own is the function of package db. *)
Lemma alone_Store (fs : FileSystem) (transact : Transaction) :
  let sys := alone fs (StoreTransaction transact) in
  (disk sys, proc1 sys)
  = ((Store Marshal Unmarshal path fs transact).1,
     Returned (Store Marshal Unmarshal path fs transact).2).
Proof.
  cbv zeta. unfold Concurrent.alone, Concurrent.run, Store. simpl.
  destruct (Open Unmarshal path fs) as [database [e|]]; simpl; [done|].
  by destruct (Write Marshal path fs (Database_Store database transact)).
Qed.

Lemma alone_Delete (fs : FileSystem) (ID : Z) :
  let sys := alone fs (DeleteTransaction ID) in
  match Delete Marshal Unmarshal path fs ID with
  | Some (fs', err) => (disk sys, proc1 sys) = (fs', Returned err)
  | None => (disk sys, proc1 sys) = (fs, Panicked)
  end.
Proof.
  cbv zeta. unfold Concurrent.alone, Concurrent.run, Delete. simpl.
  destruct (Open Unmarshal path fs) as [database [e|]]; simpl; [done|].
  destruct (Database_Delete database ID) as [[database' [e|]]|]; simpl; try done.
  by destruct (Write Marshal path fs database').
Qed.

Lemma WriteFile_twice (fs : FileSystem) (f : File) (data1 data2 : string) :
  files fs !! path = Some f → writable f = true →
  WriteFile (WriteFile fs path data1).1 path data2 = WriteFile fs path data2.
Proof.
  intros Hf Hw. unfold WriteFile. rewrite Hf, Hw. simpl.
  rewrite lookup_insert_eq. simpl. rewrite ?Hw. by rewrite insert_insert_eq.
Qed.

Lemma ReadFile_WriteFile (fs : FileSystem) (f : File) (data : string) :
  files fs !! path = Some f → writable f = true → readable f = true →
  (WriteFile fs path data).2 = None ∧
  ReadFile (WriteFile fs path data).1 path = (data, None).
Proof.
  intros Hf Hw Hr. unfold WriteFile, ReadFile. rewrite Hf, Hw. simpl.
  rewrite lookup_insert_eq. simpl. by rewrite Hr.
Qed.

Lemma step_P1 (fs : FileSystem) (p q : Proc) :
  step Marshal Unmarshal path {| disk := fs; proc1 := p; proc2 := q |} P1
  = {| disk := (stepProc Marshal Unmarshal path fs p).1;
       proc1 := (stepProc Marshal Unmarshal path fs p).2; proc2 := q |}.
Proof. unfold step. simpl. by destruct (stepProc Marshal Unmarshal path fs p). Qed.

Lemma step_P2 (fs : FileSystem) (p q : Proc) :
  step Marshal Unmarshal path {| disk := fs; proc1 := p; proc2 := q |} P2
  = {| disk := (stepProc Marshal Unmarshal path fs q).1; proc1 := p;
       proc2 := (stepProc Marshal Unmarshal path fs q).2 |}.
Proof. unfold step. simpl. by destruct (stepProc Marshal Unmarshal path fs q). Qed.

Lemma stepProc_Start (fs : FileSystem) (m : Mutator) (database : Database) :
  Open Unmarshal path fs = (database, None) →
  stepProc Marshal Unmarshal path fs (Start m) = (fs, Opened m database).
Proof. intros HO. simpl. by rewrite HO. Qed.

Lemma stepProc_Opened (fs : FileSystem) (m : Mutator) (database database' : Database) :
  mutate m database = Some (database', None) →
  stepProc Marshal Unmarshal path fs (Opened m database) = (fs, Mutated database').
Proof. intros Hm. simpl. by rewrite Hm. Qed.

Lemma stepProc_Mutated (fs : FileSystem) (database : Database) (json : string) :
  Marshal database = (json, None) →
  stepProc Marshal Unmarshal path fs (Mutated database)
  = ((WriteFile fs path json).1, Returned None).
Proof. intros HM. simpl. by rewrite (Write_marshalled Marshal path fs database json HM). Qed.

(** C9. Two invocations of a composite mutator (each a Store or a Delete of
    package db) start on the same file, which both can open, read and write,
    and each mutation succeeds on the ledger in the file. Then there is an
    interleaving of their calls in which both return the nil error, the first
    writes its ledger, the second writes over it, and the file is left as if
    the first invocation had never run: its mutation is lost. *)
Theorem lost_update (fs : FileSystem) (f : File) (m1 m2 : Mutator)
    (database db1 db2 : Database) (json1 json2 : string) :
  files fs !! path = Some f → readable f = true → writable f = true →
  Open Unmarshal path fs = (database, None) →
  mutate m1 database = Some (db1, None) →
  mutate m2 database = Some (db2, None) →
  Marshal db1 = (json1, None) →
  Marshal db2 = (json2, None) →
  ∃ before after : list Pid,
    let sys0 := {| disk := fs; proc1 := Start m1; proc2 := Start m2 |} in
    let mid := run before sys0 in
    let final := run (before ++ after) sys0 in
    proc1 mid = Returned None ∧
    ReadFile (disk mid) path = (json1, None) ∧
    proc1 final = Returned None ∧ proc2 final = Returned None ∧
    ReadFile (disk final) path = (json2, None) ∧
    disk final = disk (alone fs m2).
Proof.
  intros Hf Hr Hw HO H1 H2 HM1 HM2.
  exists [P1; P2; P1; P1], [P2; P2]. cbv zeta.
  unfold Concurrent.alone, Concurrent.run. cbn [foldl app].
  repeat (rewrite ?step_P1, ?step_P2, ?(stepProc_Start _ _ _ HO),
            ?(stepProc_Opened _ _ _ _ H1), ?(stepProc_Opened _ _ _ _ H2),
            ?(stepProc_Mutated _ _ _ HM1), ?(stepProc_Mutated _ _ _ HM2);
          cbn [fst snd disk proc1 proc2]).
  rewrite (WriteFile_twice fs f json1 json2 Hf Hw).
  destruct (ReadFile_WriteFile fs f json1 Hf Hw Hr) as [_ HR1].
  destruct (ReadFile_WriteFile fs f json2 Hf Hw Hr) as [_ HR2].
  by rewrite HR1, HR2.
Qed.

End ConcurrentFacts.

Lemma lost_update_witness :
  ∃ before after : list Concurrent.Pid,
    let sys0 := {| Concurrent.disk := Demo.diskOf "Home" true;
                   Concurrent.proc1 := Concurrent.Start (Concurrent.StoreTransaction Demo.salary);
                   Concurrent.proc2 := Concurrent.Start (Concurrent.StoreTransaction Demo.rent) |} in
    let mid := Concurrent.run Demo.marshal Demo.unmarshal Demo.path before sys0 in
    let final := Concurrent.run Demo.marshal Demo.unmarshal Demo.path (before ++ after) sys0 in
    Concurrent.proc1 mid = Concurrent.Returned None ∧
    ReadFile (Concurrent.disk mid) Demo.path = ("Home,Salary", None) ∧
    Concurrent.proc1 final = Concurrent.Returned None ∧
    Concurrent.proc2 final = Concurrent.Returned None ∧
    ReadFile (Concurrent.disk final) Demo.path = ("Home,Rent", None) ∧
    Concurrent.disk final
    = Concurrent.disk (Concurrent.alone Demo.marshal Demo.unmarshal Demo.path
                         (Demo.diskOf "Home" true)
                         (Concurrent.StoreTransaction Demo.rent)).
Proof.
  apply (lost_update Demo.marshal Demo.unmarshal Demo.path
           (Demo.diskOf "Home" true) (Demo.fileOf "Home" true)
           (Concurrent.StoreTransaction Demo.salary)
           (Concurrent.StoreTransaction Demo.rent)
           (NewDatabase "Home")
           (Database_Store (NewDatabase "Home") Demo.salary)
           (Database_Store (NewDatabase "Home") Demo.rent));
    reflexivity.
Defined.

(** ** The filter *)

Section FilterFacts.
Import Main.

Lemma name_test (namePredicate : string) (transact : Transaction) :
  negb (String.eqb namePredicate "")
  && negb (String.eqb (Name transact) namePredicate) = false
  ↔ namePredicate = "" ∨ Name transact = namePredicate.
Proof.
  destruct (String.eqb_spec namePredicate "");
    destruct (String.eqb_spec (Name transact) namePredicate); simpl;
    intuition congruence.
Qed.

Lemma max_test (maxPredicate : Value) (transact : Transaction) :
  negb (maxPredicate =? ZeroValue)
  && Value_Smaller maxPredicate (Amount transact) = false
  ↔ maxPredicate = 0 ∨ Amount transact <= maxPredicate.
Proof.
  unfold Value_Smaller, ZeroValue.
  destruct (Z.eqb_spec maxPredicate 0);
    destruct (Z.ltb_spec maxPredicate (Amount transact)); simpl;
    intuition (congruence || lia).
Qed.

Lemma min_test (minPredicate : Value) (transact : Transaction) :
  negb (minPredicate =? ZeroValue)
  && Value_Larger minPredicate (Amount transact) = false
  ↔ minPredicate = 0 ∨ minPredicate <= Amount transact.
Proof.
  unfold Value_Larger, ZeroValue. rewrite Z.gtb_ltb.
  destruct (Z.eqb_spec minPredicate 0);
    destruct (Z.ltb_spec (Amount transact) minPredicate); simpl;
    intuition (congruence || lia).
Qed.

Lemma type_test (typePredicate : string) (transact : Transaction) :
  negb (String.eqb typePredicate "")
  && ((isTypeDeposit typePredicate && negb (String.eqb (Type_ transact) Deposit))
      || (isTypeWithdraw typePredicate
          && negb (String.eqb (Type_ transact) Withdraw))) = false
  ↔ typePredicate = "" ∨
    ((isTypeDeposit typePredicate = true → Type_ transact = Deposit) ∧
     (isTypeWithdraw typePredicate = true → Type_ transact = Withdraw)).
Proof.
  destruct (String.eqb_spec typePredicate "");
    destruct (isTypeDeposit typePredicate), (isTypeWithdraw typePredicate);
    destruct (String.eqb_spec (Type_ transact) Deposit);
    destruct (String.eqb_spec (Type_ transact) Withdraw); simpl;
    intuition congruence.
Qed.

Lemma skipped_false_iff (namePredicate : string) (maxPredicate minPredicate : Value)
    (typePredicate : string) (transact : Transaction) :
  skipped namePredicate maxPredicate minPredicate typePredicate transact = false ↔
  (namePredicate = "" ∨ Name transact = namePredicate) ∧
  (maxPredicate = 0 ∨ Amount transact <= maxPredicate) ∧
  (minPredicate = 0 ∨ minPredicate <= Amount transact) ∧
  (typePredicate = "" ∨
     ((isTypeDeposit typePredicate = true → Type_ transact = Deposit) ∧
      (isTypeWithdraw typePredicate = true → Type_ transact = Withdraw))).
Proof.
  rewrite <- name_test, <- max_test, <- min_test, <- type_test.
  unfold skipped.
  repeat match goal with
         | |- context [if ?b then true else _] => destruct b
         end; intuition congruence.
Qed.

Lemma isTypeWithdraw_iff (text : string) :
  isTypeWithdraw text = true ↔
  ToLower (TrimSpace text) = "wd" ∨ ToLower (TrimSpace text) = "withdraw"
  ∨ ToLower (TrimSpace text) = "draw".
Proof.
  unfold isTypeWithdraw. cbv zeta.
  destruct (String.eqb_spec (ToLower (TrimSpace text)) "wd");
    destruct (String.eqb_spec (ToLower (TrimSpace text)) "withdraw");
    destruct (String.eqb_spec (ToLower (TrimSpace text)) "draw"); simpl;
    intuition congruence.
Qed.

Lemma isTypeDeposit_iff (text : string) :
  isTypeDeposit text = true ↔
  ToLower (TrimSpace text) = "dp" ∨ ToLower (TrimSpace text) = "deposit"
  ∨ ToLower (TrimSpace text) = "depo".
Proof.
  unfold isTypeDeposit. cbv zeta.
  destruct (String.eqb_spec (ToLower (TrimSpace text)) "dp");
    destruct (String.eqb_spec (ToLower (TrimSpace text)) "deposit");
    destruct (String.eqb_spec (ToLower (TrimSpace text)) "depo"); simpl;
    intuition congruence.
Qed.

(* The loop from [id] on: it ends without error, and adds to the map the
   transactions from [id] on that pass the four tests. *)
Lemma filterLoop_spec (database : Database) (namePredicate : string)
    (maxPredicate minPredicate : Value) (typePredicate : string) :
  Database_Size database <= GoInt.maxInt →
  ∀ (fuel : nat) (id : Z) (idMap : gmap Z Transaction),
    0 <= id <= Database_Size database →
    (Z.to_nat (Database_Size database - id) < fuel)%nat →
    (∀ j, id <= j → idMap !! j = None) →
    ∃ idMap',
      filterLoop database namePredicate maxPredicate minPredicate typePredicate
        fuel id idMap = Some (idMap', None) ∧
      ∀ j t, idMap' !! j = Some t ↔
        idMap !! j = Some t ∨
        (id <= j ∧ Transactions database !! Z.to_nat j = Some t ∧
         skipped namePredicate maxPredicate minPredicate typePredicate t = false).
Proof.
  intros Hlen fuel. induction fuel as [|fuel IH]; intros id idMap Hid Hfuel Hfresh.
  { lia. }
  simpl. destruct (Z.ltb_spec id (Database_Size database)) as [Hlt|Hge].
  - destruct (index_is_Some (Transactions database) id) as (t0 & _ & Ht0).
    { unfold Database_Size in Hlt. lia. }
    rewrite (Read_in database id t0) by (lia || done). simpl.
    assert (GoInt.add id 1 = id + 1) as ->.
    { apply wrap_small. unfold GoInt.is_int, GoInt.minInt in *. lia. }
    set (idMap1 := if skipped namePredicate maxPredicate minPredicate typePredicate t0
                   then idMap else <[id:=t0]> idMap).
    destruct (IH (id + 1) idMap1) as (idMap' & Hrun & Hspec); [lia|lia| |].
    { intros j Hj. subst idMap1.
      destruct (skipped _ _ _ _ t0); [apply Hfresh; lia|].
      rewrite lookup_insert_ne by lia. apply Hfresh. lia. }
    exists idMap'. split; [done|]. intros j t. rewrite Hspec. subst idMap1.
    destruct (decide (j = id)) as [->|Hne].
    + rewrite Ht0.
      destruct (skipped namePredicate maxPredicate minPredicate typePredicate t0) eqn:Hsk.
      * rewrite (Hfresh id) by lia. split.
        -- intros [?|(? & _)]; [done|lia].
        -- intros [?|(_ & [= <-] & ?)]; [done|congruence].
      * rewrite lookup_insert_eq, (Hfresh id) by lia. split.
        -- intros [[= <-]|(? & _)]; [|lia]. right. split; [lia|done].
        -- intros [?|(_ & [= <-] & _)]; [done|]. by left.
    + assert (idMap !! j = Some t ↔
              (if skipped namePredicate maxPredicate minPredicate typePredicate t0
               then idMap else <[id:=t0]> idMap) !! j = Some t) as <-.
      { destruct (skipped _ _ _ _ t0); [done|]. by rewrite lookup_insert_ne. }
      split; (intros [?|(? & ?)]; [by left|right; split; [lia|done]]).
  - exists idMap. split; [done|]. intros j t. split; [by left|].
    intros [?|(Hj & Ht & _)]; [done|].
    apply lookup_lt_Some in Ht. unfold Database_Size in *. lia.
Qed.

(** C7, as the code has it. On a ledger (a Go slice) and for a kind
    predicate of ASCII text, the loop of filterAction ends without error,
    and a transaction is in its result, under its index, exactly when: the
    name predicate is empty or equals its name; the maximum is zero or its
    amount is at most the maximum; the minimum is zero or its amount is at
    least the minimum; and the kind predicate is empty, or its kind is
    "deposit" if the predicate is a Deposit synonym and "withdraw" if the
    predicate is a Withdraw synonym. A kind predicate that is neither kind
    of synonym is not applied. The synonyms are taken after trimming white
    space and lowering the case. With kind "wd" and minimum 100 over
    [Withdraw 50, Withdraw 150, Deposit 200] the result is the second entry
    alone, under ID 1. *)
Theorem Filter_spec :
  (∀ (database : Database) (namePredicate : string)
     (maxPredicate minPredicate : Value) (typePredicate : string),
     Database_Size database <= GoInt.maxInt →
     Env.isASCII typePredicate = true →
     ∃ idMap : gmap Z Transaction,
       Filter database namePredicate maxPredicate minPredicate typePredicate
       = Some (idMap, None) ∧
       ∀ (id : Z) (transact : Transaction),
         idMap !! id = Some transact ↔
         0 <= id ∧ Transactions database !! Z.to_nat id = Some transact ∧
         (namePredicate = "" ∨ Name transact = namePredicate) ∧
         (maxPredicate = 0 ∨ Amount transact <= maxPredicate) ∧
         (minPredicate = 0 ∨ minPredicate <= Amount transact) ∧
         (typePredicate = "" ∨
            ((isTypeDeposit typePredicate = true → Type_ transact = Deposit) ∧
             (isTypeWithdraw typePredicate = true → Type_ transact = Withdraw)))) ∧
  (∀ text : string,
     Env.isASCII text = true →
     (isTypeWithdraw text = true ↔
        ToLower (TrimSpace text) = "wd" ∨ ToLower (TrimSpace text) = "withdraw"
        ∨ ToLower (TrimSpace text) = "draw") ∧
     (isTypeDeposit text = true ↔
        ToLower (TrimSpace text) = "dp" ∨ ToLower (TrimSpace text) = "deposit"
        ∨ ToLower (TrimSpace text) = "depo")) ∧
  Filter Demo.sample "" 0 100 "wd" = Some ({[ 1 := Demo.wd150 ]}, None).
Proof.
  split; [|split].
  - intros database namePredicate maxPredicate minPredicate typePredicate Hlen _.
    destruct (filterLoop_spec database namePredicate maxPredicate minPredicate
                typePredicate Hlen (S (Z.to_nat (Database_Size database))) 0 ∅)
      as (idMap & Hrun & Hspec).
    { unfold Database_Size. lia. }
    { lia. }
    { intros j _. apply lookup_empty. }
    exists idMap. split; [done|]. intros id transact.
    rewrite Hspec, lookup_empty, <- skipped_false_iff. split.
    + intros [?|(? & ? & ?)]; done.
    + intros (? & ? & ?). by right.
  - intros text _. split; [apply isTypeWithdraw_iff|apply isTypeDeposit_iff].
  - vm_compute. reflexivity.
Qed.

Lemma Filter_spec_witness :
  ∃ idMap : gmap Z Transaction,
    Filter Demo.sample "" 0 100 "wd" = Some (idMap, None) ∧
    (idMap !! 1 = Some Demo.wd150 ↔
     0 <= 1 ∧ Transactions Demo.sample !! Z.to_nat 1 = Some Demo.wd150 ∧
     (("" : string) = "" ∨ Name Demo.wd150 = "") ∧
     (0 = 0 ∨ Amount Demo.wd150 <= 0) ∧
     (100 = 0 ∨ 100 <= Amount Demo.wd150) ∧
     (("wd" : string) = "" ∨
        ((isTypeDeposit "wd" = true → Type_ Demo.wd150 = Deposit) ∧
         (isTypeWithdraw "wd" = true → Type_ Demo.wd150 = Withdraw)))).
Proof.
  destruct Filter_spec as [H _].
  destruct (H Demo.sample "" 0 100 "wd") as (idMap & Hrun & Hspec).
  { vm_compute. congruence. }
  { reflexivity. }
  exists idMap. split; [exact Hrun|]. apply Hspec.
Defined.

(** C7, as stated, fails on the code: with the kind predicate "foo", which
    is not empty and is a synonym of neither kind, the withdrawal at index 0
    is in the result. *)
Lemma Filter_unknown_kind_counterexample :
  ∃ idMap : gmap Z Transaction,
    Filter Demo.sample "" 0 0 "foo" = Some (idMap, None) ∧
    idMap !! 0 = Some Demo.wd50 ∧
    ("foo" : string) ≠ "" ∧ ¬ kindMatches "foo" (Type_ Demo.wd50).
Proof.
  eexists. split; [vm_compute; reflexivity|]. split; [reflexivity|].
  split; [discriminate|]. intros [[H _]|[H _]]; vm_compute in H; discriminate.
Qed.

End FilterFacts.

(** ** The running balance *)

Section BalanceFacts.
Import Main.

Lemma balanceStep_unknown (balance : Value) (transact : Transaction) :
  knownKind transact = false → balanceStep balance transact = balance.
Proof.
  unfold knownKind, balanceStep. intros [H1 H2]%orb_false_elim.
  by rewrite H1, H2.
Qed.

Lemma foldl_balance_known (transactions : list Transaction) : ∀ balance : Value,
  foldl balanceStep balance transactions
  = foldl balanceStep balance (List.filter knownKind transactions).
Proof.
  induction transactions as [|t l IH]; intros balance; [done|].
  simpl. destruct (knownKind t) eqn:Hk.
  - simpl. apply IH.
  - rewrite (balanceStep_unknown balance t Hk). apply IH.
Qed.

(** C10. In the balance loop, a transaction whose kind is neither "withdraw"
    nor "deposit" leaves the balance as it is; so the balance over a sequence
    of transactions is the balance over the sequence without them, and the
    balance that printTransactionTable prints is the balance over its rows of
    a known kind. *)
Theorem balance_ignores_unknown_kinds :
  (∀ (balance : Value) (transact : Transaction),
     Type_ transact ≠ Withdraw → Type_ transact ≠ Deposit →
     balanceStep balance transact = balance) ∧
  (∀ transactions : list Transaction,
     RunningBalance transactions
     = RunningBalance (List.filter knownKind transactions)) ∧
  (∀ transactions : gmap Z Transaction,
     (printTransactionTable transactions).2
     = RunningBalance (List.filter knownKind (printTransactionTable transactions).1.*2)).
Proof.
  split; [|split].
  - intros balance transact Hw Hd. apply balanceStep_unknown. unfold knownKind.
    destruct (String.eqb_spec (Type_ transact) Withdraw); [done|].
    destruct (String.eqb_spec (Type_ transact) Deposit); done.
  - intros transactions. apply foldl_balance_known.
  - intros transactions. unfold printTransactionTable. simpl.
    apply foldl_balance_known.
Qed.

Lemma balance_ignores_unknown_kinds_witness :
  balanceStep 300 {| Name := "x"; Amount := 7; Type_ := "Deposit"; Date := 0 |} = 300.
Proof.
  destruct balance_ignores_unknown_kinds as [H _].
  apply H; vm_compute; congruence.
Defined.

End BalanceFacts.

(** ** The earlier evolution *)

(** X27. The first version of Delete had the bounds check the other way
    round: on a ledger (a Go slice) an index in range is refused with the
    not-found error and the ledger is unchanged, and an index out of range
    reaches the slice expressions and panics. It deletes nothing. *)
Lemma Earlier_Delete_inverted (db : Database) (ID : Z) :
  Database_Size db <= GoInt.maxInt →
  (0 <= ID < Database_Size db →
     Earlier.Database_Delete db ID = Some (db, Some errTransactionNotFound)) ∧
  (¬ (0 <= ID < Database_Size db) → Earlier.Database_Delete db ID = None).
Proof.
  intros Hlen. unfold Earlier.Database_Delete. rewrite Z.gtb_ltb. split; intros H.
  - destruct (Z.ltb_spec (-1) ID); [|lia].
    destruct (Z.ltb_spec ID (Database_Size db)); [done|lia].
  - assert ((-1 <? ID) && (ID <? Database_Size db) = false) as ->.
    { destruct (Z.ltb_spec (-1) ID); [|done].
      destruct (Z.ltb_spec ID (Database_Size db)); [lia|done]. }
    unfold slice_to, slice_from, Database_Size in *.
    destruct (Z.ltb_spec ID 0); [done|].
    destruct (Z.ltb_spec (Z.of_nat (length (Transactions db))) ID); [done|].
    simpl. assert (ID = Z.of_nat (length (Transactions db))) as -> by lia.
    unfold GoInt.add.
    destruct (decide (Z.of_nat (length (Transactions db)) = GoInt.maxInt)) as [->|Hne].
    + reflexivity.
    + rewrite wrap_small by (unfold GoInt.is_int, GoInt.minInt in *; lia).
      destruct (Z.ltb_spec (Z.of_nat (length (Transactions db)) + 1) 0); [lia|].
      destruct (Z.ltb_spec (Z.of_nat (length (Transactions db)))
                           (Z.of_nat (length (Transactions db)) + 1)); [done|lia].
Qed.

(** X28. The first version of Read had the same check: an index in range
    gets the empty transaction and the not-found error, and an index out of
    range reaches the index expression and panics. It reads nothing. *)
Lemma Earlier_Read_inverted (db : Database) (ID : Z) :
  (0 <= ID < Database_Size db →
     Earlier.Database_Read db ID = Some (zeroTransaction, Some errTransactionNotFound)) ∧
  (¬ (0 <= ID < Database_Size db) → Earlier.Database_Read db ID = None).
Proof.
  unfold Earlier.Database_Read. rewrite Z.gtb_ltb. split; intros H.
  - destruct (Z.ltb_spec (-1) ID); [|lia].
    destruct (Z.ltb_spec ID (Database_Size db)); [done|lia].
  - assert ((-1 <? ID) && (ID <? Database_Size db) = false) as ->.
    { destruct (Z.ltb_spec (-1) ID); [|done].
      destruct (Z.ltb_spec ID (Database_Size db)); [lia|done]. }
    rewrite index_out; [done|]. unfold Database_Size in H. lia.
Qed.

Lemma Earlier_Read_first (db : Database) :
  0 < Database_Size db →
  Earlier.Database_Read db 0 = Some (zeroTransaction, Some errTransactionNotFound).
Proof.
  intros H. unfold Earlier.Database_Read.
  destruct (Z.ltb_spec 0 (Database_Size db)); [done|lia].
Qed.

(** X29. With that Read, the list action of main 0.1 shows no ledger that
    has a transaction: it stops at index 0 with the not-found error, before
    any balance is printed. *)
Lemma Earlier_listAction_stops (db : Database) :
  0 < Database_Size db →
  Earlier.listAction db = Some (None, Some errTransactionNotFound).
Proof.
  intros H. unfold Earlier.listAction.
  cbn [Earlier.listLoop].
  destruct (Z.ltb_spec 0 (Database_Size db)); [|lia].
  by rewrite (Earlier_Read_first db H).
Qed.

Lemma Monolith_listBalance_known (db : Database) :
  Monolith.listBalance db
  = Main.RunningBalance (List.filter Main.knownKind (Transactions db)).
Proof. apply foldl_balance_known. Qed.

(** ** More on the ledger *)

Lemma delete_last {A} (l : list A) (x : A) : delete (length l) (l ++ [x]) = l.
Proof. induction l as [|y l IH]; [done|]. simpl. by rewrite IH. Qed.

(** X1. Deleting the index that [Store] gave to a transaction undoes the
    [Store]: on a ledger with room for one more transaction, [Store(t)] and
    then [Delete] of the prior [Size()] returns no error and the ledger as it
    was. *)
Theorem Store_then_Delete (db : Database) (t : Transaction) :
  Database_Size db < GoInt.maxInt →
  Database_Delete (Database_Store db t) (Database_Size db) = Some (db, None).
Proof.
  intros Hlen.
  assert (Database_Size (Database_Store db t) = Database_Size db + 1) as Hs.
  { unfold Database_Size, Database_Store. simpl. rewrite length_app. simpl. lia. }
  rewrite Delete_in.
  - simpl. unfold Database_Size. rewrite Nat2Z.id, delete_last. by destruct db.
  - lia.
  - unfold Database_Size in *. lia.
Qed.

Lemma Store_then_Delete_witness :
  Database_Delete (Database_Store Demo.home Demo.wd50) 2 = Some (Demo.home, None).
Proof.
  apply (Store_then_Delete Demo.home Demo.wd50). vm_compute. reflexivity.
Defined.

(** ** More on persistence *)

Section PersistenceMore.

Variable Marshal : Database → string * option Error.
Variable Unmarshal : string → Database → Database * option Error.
Variable path : string.

Local Abbreviation usable := (Env.usable path).

Lemma WriteFile_usable (fs : FileSystem) (data : string) :
  usable fs →
  (WriteFile fs path data).2 = None ∧
  ReadFile (WriteFile fs path data).1 path = (data, None) ∧
  StatNotExist (WriteFile fs path data).1 path = false ∧
  usable (WriteFile fs path data).1.
Proof.
  unfold Env.usable, WriteFile, ReadFile, StatNotExist.
  destruct (files fs !! path) as [f|] eqn:Hf.
  - intros [Hr Hw]. rewrite Hw. simpl. rewrite lookup_insert_eq. simpl.
    by rewrite Hr.
  - intros ->. simpl. by rewrite lookup_insert_eq.
Qed.

(** X2. The persistence round trip. When the ledger serializes to a text
    that deserializes to the same ledger, and the path can be written and
    read, [Write] returns no error and [Open] afterwards returns the ledger;
    [Exists] is then true, also when [Write] had to create the file. *)
Theorem Write_then_Open (fs : FileSystem) (database : Database) (json : string) :
  Marshal database = (json, None) →
  Unmarshal json zeroDatabase = (database, None) →
  usable fs →
  let fs' := (Write Marshal path fs database).1 in
  (Write Marshal path fs database).2 = None ∧
  Open Unmarshal path fs' = (database, None) ∧
  Exists path fs' = true.
Proof.
  intros HM HU Hfs. cbv zeta.
  rewrite (Write_marshalled Marshal path fs database json HM). simpl.
  destruct (WriteFile_usable fs json Hfs) as (_ & HR & HS & _).
  split; [done|]. split.
  - by apply (Open_decodable Unmarshal path _ json).
  - unfold Exists. by rewrite HS.
Qed.

(** X3. [Store] on a file that does not deserialize. When the file can be
    read and written but its bytes are no ledger, [Store(t)] returns no error
    and replaces the content of the file by the serialized ledger that has no
    name and holds [t] alone: what the file held before is gone. *)
Theorem Store_over_undecodable (fs : FileSystem) (f : File) (transact : Transaction)
    (json : string) :
  files fs !! path = Some f → readable f = true → writable f = true →
  (Unmarshal (content f) zeroDatabase).2 ≠ None →
  Marshal {| DatabaseName := ""; Transactions := [transact] |} = (json, None) →
  (Store Marshal Unmarshal path fs transact).2 = None ∧
  ReadFile (Store Marshal Unmarshal path fs transact).1 path = (json, None).
Proof.
  intros Hf Hr Hw HU HM.
  assert (ReadFile fs path = (content f, None)) as HR.
  { unfold ReadFile. by rewrite Hf, Hr. }
  assert (Open Unmarshal path fs = (zeroDatabase, None)) as HO.
  { unfold Open. rewrite HR.
    by destruct (Unmarshal (content f) zeroDatabase) as [database [e|]]. }
  unfold Store. rewrite HO.
  change (Database_Store zeroDatabase transact)
    with {| DatabaseName := ""; Transactions := [transact] |}.
  rewrite (Write_marshalled Marshal path fs _ json HM). simpl.
  split; [done|].
  apply (WriteFile_usable fs json). unfold Env.usable. by rewrite Hf.
Qed.

(** X4. [Store] when the file cannot be read (it is missing, or not
    readable): the error of the read is returned and the file system is left
    as it was; no file is created. *)
Theorem Store_unreadable (fs : FileSystem) (transact : Transaction) (e : Error) :
  (ReadFile fs path).2 = Some e →
  Store Marshal Unmarshal path fs transact = (fs, Some e).
Proof.
  intros HR. unfold Store, Open.
  destruct (ReadFile fs path) as [bytes err]. simpl in HR. by subst err.
Qed.

(** X5. [Delete] through the file. With the ledger of the file opened as
    [database]: for an index out of range, [Delete] returns
    [errTransactionNotFound] and does not write; for an index in range it
    returns what [Write] returns on the ledger without that transaction, so
    when the shortened ledger serializes and the path can be written it
    returns no error and the file then holds the serialized shortened
    ledger. It never panics, for no index. *)
Theorem Delete_through_file (fs : FileSystem) (database : Database) (ID : Z) :
  Open Unmarshal path fs = (database, None) →
  Database_Size database <= GoInt.maxInt →
  (¬ (0 <= ID < Database_Size database) →
     Delete Marshal Unmarshal path fs ID = Some (fs, Some errTransactionNotFound)) ∧
  (0 <= ID < Database_Size database →
     Delete Marshal Unmarshal path fs ID
     = Some (Write Marshal path fs
               {| DatabaseName := DatabaseName database;
                  Transactions := delete (Z.to_nat ID) (Transactions database) |})) ∧
  (0 <= ID < Database_Size database →
     ∀ json,
       Marshal {| DatabaseName := DatabaseName database;
                  Transactions := delete (Z.to_nat ID) (Transactions database) |}
       = (json, None) →
       usable fs →
       ∃ fs', Delete Marshal Unmarshal path fs ID = Some (fs', None) ∧
              ReadFile fs' path = (json, None)) ∧
  is_Some (Delete Marshal Unmarshal path fs ID).
Proof.
  intros HO Hlen. unfold Delete. rewrite HO. split; [|split; [|split]].
  - intros Hout. by rewrite (Delete_out database ID Hout).
  - intros Hin. by rewrite (Delete_in database ID Hlen Hin).
  - intros Hin json HM Hfs. rewrite (Delete_in database ID Hlen Hin). simpl.
    rewrite (Write_marshalled Marshal path fs _ json HM).
    eexists. split; [done|]. simpl. by apply WriteFile_usable.
  - destruct (decide (0 <= ID < Database_Size database)) as [Hin|Hout].
    + by rewrite (Delete_in database ID Hlen Hin).
    + by rewrite (Delete_out database ID Hout).
Qed.

(** X6. A stored transaction is read back through the file. When [Open]
    gives [database], the ledger with [t] appended serializes to a text that
    deserializes to it, and the path can be written and read: [Store(t)]
    returns no error, and [Get] of the prior [Size()] then returns [t]. *)
Theorem Store_then_Get (fs : FileSystem) (database : Database)
    (transact : Transaction) (json : string) :
  Open Unmarshal path fs = (database, None) →
  Marshal (Database_Store database transact) = (json, None) →
  Unmarshal json zeroDatabase = (Database_Store database transact, None) →
  usable fs →
  (Store Marshal Unmarshal path fs transact).2 = None ∧
  Get Unmarshal path (Store Marshal Unmarshal path fs transact).1
      (Database_Size database)
  = Some (transact, None).
Proof.
  intros HO HM HU Hfs. unfold Store. rewrite HO.
  rewrite (Write_marshalled Marshal path fs _ json HM). simpl.
  split; [done|]. unfold Get.
  destruct (WriteFile_usable fs json Hfs) as (_ & HR & _).
  rewrite (Open_decodable Unmarshal path _ json _ HR HU).
  apply Read_in; [unfold Database_Size; lia|]. simpl.
  unfold Database_Size. rewrite Nat2Z.id. by rewrite list_lookup_middle.
Qed.

End PersistenceMore.

Lemma Write_then_Open_witness :
  Open Demo2.unmarshal Demo.path
    (Write Demo.marshal Demo.path
       {| files := ∅; creatable := true |} Demo.home).1
  = (Demo.home, None).
Proof.
  apply (Write_then_Open Demo.marshal Demo2.unmarshal Demo.path
           {| files := ∅; creatable := true |} Demo.home "Home,Salary,Rent");
    reflexivity.
Defined.

Lemma Store_over_undecodable_witness :
  ReadFile (Store Demo.marshal Demo.unmarshal Demo.path
              (Demo.diskOf "a long letter" true) Demo.rent).1 Demo.path
  = (",Rent", None).
Proof.
  apply (Store_over_undecodable Demo.marshal Demo.unmarshal Demo.path
           (Demo.diskOf "a long letter" true) (Demo.fileOf "a long letter" true)
           Demo.rent ",Rent"); try reflexivity.
  vm_compute. congruence.
Defined.

Lemma Store_unreadable_witness :
  Store Demo.marshal Demo.unmarshal Demo.path
    {| files := ∅; creatable := true |} Demo.rent
  = ({| files := ∅; creatable := true |}, Some (PathError "open" Demo.path ENOENT)).
Proof.
  apply (Store_unreadable Demo.marshal Demo.unmarshal Demo.path). reflexivity.
Defined.

Lemma Delete_through_file_witness :
  Delete Demo.marshal Demo2.unmarshal Demo.path
    (Demo.diskOf "Home,Salary,Rent" true) 2
  = Some (Demo.diskOf "Home,Salary,Rent" true, Some errTransactionNotFound) ∧
  ∃ fs', Delete Demo.marshal Demo2.unmarshal Demo.path
           (Demo.diskOf "Home,Salary,Rent" true) 1 = Some (fs', None) ∧
         ReadFile fs' Demo.path = ("Home,Salary", None).
Proof.
  destruct (Delete_through_file Demo.marshal Demo2.unmarshal Demo.path
              (Demo.diskOf "Home,Salary,Rent" true) Demo.home 2) as [Hout _];
    [reflexivity|vm_compute; congruence|].
  destruct (Delete_through_file Demo.marshal Demo2.unmarshal Demo.path
              (Demo.diskOf "Home,Salary,Rent" true) Demo.home 1) as (_ & _ & Hin & _);
    [reflexivity|vm_compute; congruence|].
  split.
  - apply Hout. vm_compute. intros [_ H]. discriminate H.
  - apply Hin; [vm_compute; split; congruence|reflexivity|].
    vm_compute. split; reflexivity.
Defined.

Lemma Store_then_Get_witness :
  Get Demo2.unmarshal Demo.path
    (Store Demo.marshal Demo2.unmarshal Demo.path
       (Demo.diskOf "Home,Salary" true) Demo.rent).1 1
  = Some (Demo.rent, None).
Proof.
  apply (Store_then_Get Demo.marshal Demo2.unmarshal Demo.path
           (Demo.diskOf "Home,Salary" true)
           {| DatabaseName := "Home"; Transactions := [Demo.salary] |}
           Demo.rent "Home,Salary,Rent"); try reflexivity.
  vm_compute. split; reflexivity.
Defined.

Section ConcurrentMore.
Import Concurrent.

Variable Marshal : Database → string * option Error.
Variable Unmarshal : string → Database → Database * option Error.
Variable path : string.

(** X7. Two invocations one after the other. When the second invocation
    makes its calls after the first has returned, and the ledger that the
    first wrote reads back as written, the second mutates the ledger that the
    first left: both return no error and the file holds both mutations. *)
Theorem serial_runs_compose (fs : FileSystem) (f : File) (m1 m2 : Mutator)
    (database db1 db2 : Database) (json1 json2 : string) :
  files fs !! path = Some f → readable f = true → writable f = true →
  Open Unmarshal path fs = (database, None) →
  mutate m1 database = Some (db1, None) →
  Marshal db1 = (json1, None) →
  Unmarshal json1 zeroDatabase = (db1, None) →
  mutate m2 db1 = Some (db2, None) →
  Marshal db2 = (json2, None) →
  let final := Concurrent.run Marshal Unmarshal path [P1; P1; P1; P2; P2; P2]
                 {| disk := fs; proc1 := Start m1; proc2 := Start m2 |} in
  proc1 final = Returned None ∧ proc2 final = Returned None ∧
  ReadFile (disk final) path = (json2, None).
Proof.
  intros Hf Hr Hw HO H1 HM1 HU1 H2 HM2. cbv zeta.
  destruct (ReadFile_WriteFile path fs f json1 Hf Hw Hr) as [_ HR1].
  pose proof (Open_decodable Unmarshal path _ json1 db1 HR1 HU1) as HO1.
  unfold Concurrent.run. cbn [foldl].
  repeat (rewrite ?step_P1, ?step_P2, ?(stepProc_Start _ _ _ _ _ _ HO),
            ?(stepProc_Start _ _ _ _ _ _ HO1),
            ?(stepProc_Opened _ _ _ _ _ _ _ H1), ?(stepProc_Opened _ _ _ _ _ _ _ H2),
            ?(stepProc_Mutated _ _ _ _ _ _ HM1), ?(stepProc_Mutated _ _ _ _ _ _ HM2);
          cbn [fst snd disk proc1 proc2]).
  rewrite (WriteFile_twice path fs f json1 json2 Hf Hw).
  destruct (ReadFile_WriteFile path fs f json2 Hf Hw Hr) as [_ HR2].
  by rewrite HR2.
Qed.

End ConcurrentMore.

Lemma serial_runs_compose_witness :
  let final :=
    Concurrent.run Demo.marshal Demo2.unmarshal Demo.path
      [Concurrent.P1; Concurrent.P1; Concurrent.P1;
       Concurrent.P2; Concurrent.P2; Concurrent.P2]
      {| Concurrent.disk := Demo.diskOf "Home" true;
         Concurrent.proc1 := Concurrent.Start (Concurrent.StoreTransaction Demo.salary);
         Concurrent.proc2 := Concurrent.Start (Concurrent.StoreTransaction Demo.rent) |} in
  Concurrent.proc1 final = Concurrent.Returned None ∧
  Concurrent.proc2 final = Concurrent.Returned None ∧
  ReadFile (Concurrent.disk final) Demo.path = ("Home,Salary,Rent", None).
Proof.
  apply (serial_runs_compose Demo.marshal Demo2.unmarshal Demo.path
           (Demo.diskOf "Home" true) (Demo.fileOf "Home" true)
           (Concurrent.StoreTransaction Demo.salary)
           (Concurrent.StoreTransaction Demo.rent)
           (NewDatabase "Home")
           {| DatabaseName := "Home"; Transactions := [Demo.salary] |}
           Demo.home "Home,Salary" "Home,Salary,Rent"); reflexivity.
Defined.

(** ** More on money *)

Section ParseMore.
Import Fmt.

(* Parse, spelled out over the two verbs of the currency format. *)
Lemma Parse_steps (in_ : string) :
  Parse in_ =
  match SkipSpace in_ with
  | None => 0
  | Some src1 =>
      match scanInt None src1 with
      | inr _ => 0
      | inl (maj, String "." rest1) =>
          match SkipSpace rest1 with
          | None => GoInt.wrap (maj * 100)
          | Some src2 =>
              match scanInt (Some 2%nat) src2 with
              | inl (min, _) => GoInt.wrap (maj * 100 + Z.rem min 100)
              | inr _ => GoInt.wrap (maj * 100)
              end
          end
      | inl (maj, _) => GoInt.wrap (maj * 100)
      end
  end.
Proof.
  assert (∀ maj, GoInt.add (GoInt.mul maj 100) (GoInt.rem 0 100) = GoInt.wrap (maj * 100)) as Hz.
  { intros maj. unfold GoInt.add, GoInt.mul, GoInt.rem.
    change (Z.rem 0 100) with 0. by rewrite wrap_wrap_add, Z.add_0_r. }
  assert (∀ maj m, GoInt.add (GoInt.mul maj 100) (GoInt.rem m 100)
                   = GoInt.wrap (maj * 100 + Z.rem m 100)) as Hm.
  { intros maj m. unfold GoInt.add, GoInt.mul, GoInt.rem. apply wrap_wrap_add. }
  unfold Parse, Sscanf.
  change (Ratio DefaultCurrency) with 100.
  change (parseFormat Text (Format DefaultCurrency)) with
    (Verb false None "d" :: Lit "." :: Verb true (Some 2%nat) "d"
       :: parseFormat Text "â‚¬").
  set (tail := parseFormat Text "â‚¬").
  cbn [doScanf scanWidth].
  change (Ascii.eqb "d" "%") with false. change (Ascii.eqb "d" "d") with true.
  cbv iota.
  destruct (SkipSpace in_) as [src1|]; [|reflexivity].
  destruct (scanInt None src1) as [[maj rest]|e]; [|reflexivity].
  destruct rest as [|c rest1]; [simpl; apply Hz|].
  destruct (Ascii.eqb_spec "." c) as [<-|Hc].
  - destruct (SkipSpace rest1) as [src2|]; [|simpl; apply Hz].
    destruct (scanInt (Some 2%nat) src2) as [[min rest2]|e]; [|simpl; apply Hz].
    rewrite !fst_let_pair, doScanf_no_operands. simpl. apply Hm.
  - transitivity (GoInt.wrap (maj * 100)); [simpl; apply Hz|].
    destruct c as [[] [] [] [] [] [] [] []]; try reflexivity. done.
Qed.

Lemma SkipSpace_fmtInteger (maj : Z) (rest : string) :
  SkipSpace (fmtInteger false None maj +:+ rest)
  = Some (fmtInteger false None maj +:+ rest).
Proof.
  rewrite fmtInteger_plain.
  destruct (Z.ltb_spec maj 0); [rewrite app_cons; apply SkipSpace_minus|].
  destruct (decimal_spec maj) as (Hd & Hne & _); [done|].
  destruct (decimal maj) as [|c ds]; [done|].
  simpl in Hd. apply andb_prop in Hd as [Hc _].
  rewrite app_cons. by apply SkipSpace_digit.
Qed.

Lemma scanInt_one (d : ascii) (rest : string) :
  isDigit d = true → stops rest →
  scanInt (Some 2%nat) (String d rest) = inl (digitVal d, rest).
Proof.
  intros Hd Hs. unfold scanInt.
  change (atEOF (Some 2%nat) (String d rest)) with false. cbv iota.
  rewrite (isDigit_not_sign d Hd).
  change (atEOF (Some 2%nat) (String d rest)) with false. cbv iota.
  assert (acceptRun isDecimalDigit (Some 2%nat) (String d rest)
          = (String d "", rest)) as ->.
  { unfold acceptRun; fold acceptRun. unfold isDecimalDigit at 1. rewrite Hd. simpl.
    destruct rest as [|c r]; [done|]. simpl in Hs. simpl. by rewrite Hs. }
  pose proof (isDigit_not_sign d Hd) as Hsg. unfold isSign in Hsg.
  apply orb_false_elim in Hsg as [Hp Hm].
  rewrite app_empty_l. unfold ParseInt. rewrite Hp, Hm. simpl. rewrite Hd.
  assert (0 <= digitVal d < 10) as Hv.
  { unfold isDigit, digitVal in *.
    apply andb_prop in Hd as [?%N.leb_le ?%N.leb_le]. lia. }
  replace (0 * 10 + digitVal d) with (digitVal d) by lia.
  destruct (Z.leb_spec (2 ^ 63) (digitVal d)); [lia|done].
Qed.

Lemma digitVal_bound (d : ascii) : isDigit d = true → 0 <= digitVal d < 10.
Proof.
  unfold isDigit, digitVal. intros [?%N.leb_le ?%N.leb_le]%andb_prop. lia.
Qed.

(** X8. Parse reads the major part, the dot and two minor digits, and
    nothing after them counts: the currency sign may be there, be missing, or
    be any other text, and the value is the same, major times ratio plus
    minor (in Go's int arithmetic). *)
Theorem Parse_ignores_tail (maj : Z) (d1 d2 : ascii) (rest : string) :
  GoInt.is_int maj → isDigit d1 = true → isDigit d2 = true →
  Parse (fmtInteger false None maj +:+ String "." (String d1 (String d2 rest)))
  = GoInt.wrap (maj * Ratio DefaultCurrency + (digitVal d1 * 10 + digitVal d2)).
Proof.
  intros Hmaj H1 H2. rewrite Parse_steps, SkipSpace_fmtInteger.
  rewrite scanInt_fmtInteger by done.
  rewrite SkipSpace_digit, scanInt_two by done.
  pose proof (digitVal_bound d1 H1). pose proof (digitVal_bound d2 H2).
  rewrite Z.rem_small by lia. reflexivity.
Qed.

Lemma Parse_ignores_tail_witness :
  Parse "12.34 or so" = 1234.
Proof.
  apply (Parse_ignores_tail 12 "3" "4" " or so"); try reflexivity.
  vm_compute. split; congruence.
Defined.

(** X9. A text with a major part alone, not followed by a dot, is taken as
    major units: Parse gives major times ratio. So the input "12" is the
    value 1200, twelve whole units. *)
Theorem Parse_major_only (maj : Z) (rest : string) :
  GoInt.is_int maj →
  match rest with
  | EmptyString => True
  | String c _ => c ≠ "."%char ∧ isDecimalDigit c = false
  end →
  Parse (fmtInteger false None maj +:+ rest)
  = GoInt.wrap (maj * Ratio DefaultCurrency).
Proof.
  intros Hmaj Hrest. rewrite Parse_steps, SkipSpace_fmtInteger.
  rewrite scanInt_fmtInteger; [|done|by destruct rest as [|c r]; [|apply Hrest]].
  destruct rest as [|c r]; [done|]. destruct Hrest as [Hc _].
  destruct c as [[] [] [] [] [] [] [] []]; try reflexivity. done.
Qed.

Lemma Parse_major_only_witness : Parse "12" = 1200.
Proof.
  apply (Parse_major_only 12 ""); [vm_compute; split; congruence|done].
Defined.

(** X10. A single minor digit counts as hundredths, not as tenths: for a
    major part, a dot and one digit [d], followed by no further digit, Parse
    gives major times ratio plus [d]. So "1.5" is the value 105. *)
Theorem Parse_one_minor_digit (maj : Z) (d : ascii) (rest : string) :
  GoInt.is_int maj → isDigit d = true → stops rest →
  Parse (fmtInteger false None maj +:+ String "." (String d rest))
  = GoInt.wrap (maj * Ratio DefaultCurrency + digitVal d).
Proof.
  intros Hmaj Hd Hs. rewrite Parse_steps, SkipSpace_fmtInteger.
  rewrite scanInt_fmtInteger by done.
  rewrite SkipSpace_digit, scanInt_one by done.
  pose proof (digitVal_bound d Hd).
  rewrite Z.rem_small by lia. reflexivity.
Qed.

Lemma Parse_one_minor_digit_witness : Parse "1.5" = 105.
Proof.
  apply (Parse_one_minor_digit 1 "5" ""); try reflexivity.
  vm_compute. split; congruence.
Defined.

(** X11. A text that holds no number where the scan starts (it is empty or
    blank, or begins after its white space with a newline or with a byte that
    is neither a sign nor a digit) parses as zero; no error is reported. *)
Theorem Parse_no_number (in_ : string) :
  Env.startsNoNumber in_ → Parse in_ = 0.
Proof.
  unfold Env.startsNoNumber. intros H. rewrite Parse_steps.
  destruct (SkipSpace in_) as [[|c r]|]; [done| |done].
  destruct H as [Hs Hd]. unfold scanInt.
  change (atEOF None (String c r)) with false. cbv iota. rewrite Hs.
  change (atEOF None (String c r)) with false. cbv iota.
  unfold acceptRun; fold acceptRun. by rewrite Hd.
Qed.

Lemma Parse_no_number_witness : Parse "  twelve" = 0 ∧ Parse "" = 0.
Proof.
  split; apply Parse_no_number; vm_compute; (done || by split).
Defined.

End ParseMore.

Section StringMore.

(** X12. For a negative value above minus one major unit, the rendered text
    has no sign at all: it is the text of the positive value of the same
    magnitude. *)
Theorem String_drops_small_sign (v : Value) :
  - Ratio DefaultCurrency < v < 0 → Value_String v = Value_String (- v).
Proof.
  change (Ratio DefaultCurrency) with 100. intros Hv.
  rewrite !Value_String_unfold.
  destruct (abs_rem v) as [-> _]. destruct (abs_rem (- v)) as [-> _].
  assert (Z.quot (- v) 100 = 0) as Hq by (apply Z.quot_small; lia).
  assert (Z.quot v 100 = 0) as Hq'.
  { replace v with (- - v) by lia. rewrite Z.quot_opp_l by lia. lia. }
  unfold GoInt.quo. rewrite Hq, Hq'.
  by rewrite Z.rem_opp_l, Z.abs_opp by lia.
Qed.

Lemma String_drops_small_sign_witness :
  Value_String (-50) = Value_String 50.
Proof.
  apply (String_drops_small_sign (-50)). vm_compute. split; reflexivity.
Defined.

(** X13. On the values that are not negative, rendering loses nothing: two
    such values (Go ints) with the same text are equal. *)
Theorem String_injective_nonneg (v w : Value) :
  GoInt.is_int v → GoInt.is_int w → 0 <= v → 0 <= w →
  Value_String v = Value_String w → v = w.
Proof.
  intros Hv Hw Hv0 Hw0 E.
  assert (Parse (Value_String v) = Parse (Value_String w)) as HP by (by rewrite E).
  rewrite !Parse_String in HP by done.
  assert (100 ≠ 0) as H100 by lia.
  pose proof (Z.quot_rem v 100 H100). pose proof (Z.quot_rem w 100 H100).
  pose proof (Z.rem_nonneg v 100 H100 Hv0).
  pose proof (Z.rem_nonneg w 100 H100 Hw0). lia.
Qed.

Lemma String_injective_nonneg_witness : (1250 : Z) = 1000 + 250.
Proof.
  apply (String_injective_nonneg 1250 (1000 + 250));
    vm_compute; (congruence || (split; congruence)).
Defined.

End StringMore.

(** ** More on the kinds, the balance and the table *)

Section MainMore.
Import Main.

(** X14. No text is a synonym of both kinds: [isTypeDeposit] and
    [isTypeWithdraw] are never true together, so the two halves of the kind
    test of the filter never apply at once. *)
Theorem isType_exclusive (text : string) :
  isTypeDeposit text && isTypeWithdraw text = false.
Proof.
  unfold isTypeDeposit, isTypeWithdraw. cbv zeta.
  set (lc := ToLower (TrimSpace text)).
  destruct (String.eqb_spec lc "dp") as [->|]; [reflexivity|].
  destruct (String.eqb_spec lc "deposit") as [->|]; [reflexivity|].
  destruct (String.eqb_spec lc "depo") as [->|]; [reflexivity|].
  reflexivity.
Qed.

Lemma isWhite_toLowerChar (c : ascii) : isWhite (toLowerChar c) = isWhite c.
Proof. destruct c as [[] [] [] [] [] [] [] []]; reflexivity. Qed.

Lemma toLowerChar_idemp (c : ascii) : toLowerChar (toLowerChar c) = toLowerChar c.
Proof. destruct c as [[] [] [] [] [] [] [] []]; reflexivity. Qed.

Lemma ToLower_idemp (s : string) : ToLower (ToLower s) = ToLower s.
Proof. induction s as [|c s IH]; [done|]. simpl. by rewrite toLowerChar_idemp, IH. Qed.

Lemma toLowerChar_code (c : ascii) :
  N_of_ascii (toLowerChar c)
  = (if (65 <=? N_of_ascii c) && (N_of_ascii c <=? 90)
     then N_of_ascii c + 32 else N_of_ascii c)%N.
Proof.
  unfold toLowerChar.
  destruct (N.leb_spec 65 (N_of_ascii c)); [|done].
  destruct (N.leb_spec (N_of_ascii c) 90); [|done].
  cbn [andb]. apply N_ascii_embedding. lia.
Qed.

(* Lowering a byte moves it within the letters, below every byte of a
   white rune of two or three bytes. *)
Lemma toLowerChar_eqb (c : ascii) (k : N) :
  (123 <= k)%N → (N_of_ascii (toLowerChar c) =? k)%N = (N_of_ascii c =? k)%N.
Proof.
  intros Hk. rewrite toLowerChar_code.
  destruct (N.leb_spec 65 (N_of_ascii c)); [|done].
  destruct (N.leb_spec (N_of_ascii c) 90); [|done]. cbn [andb].
  destruct (N.eqb_spec (N_of_ascii c + 32) k); [lia|].
  destruct (N.eqb_spec (N_of_ascii c) k); [lia|done].
Qed.

Lemma toLowerChar_leb_l (c : ascii) (k : N) :
  (123 <= k)%N → (k <=? N_of_ascii (toLowerChar c))%N = (k <=? N_of_ascii c)%N.
Proof.
  intros Hk. rewrite toLowerChar_code.
  destruct (N.leb_spec 65 (N_of_ascii c)); [|done].
  destruct (N.leb_spec (N_of_ascii c) 90); [|done]. cbn [andb].
  destruct (N.leb_spec k (N_of_ascii c + 32)); [lia|].
  destruct (N.leb_spec k (N_of_ascii c)); [lia|done].
Qed.

Lemma toLowerChar_leb_r (c : ascii) (k : N) :
  (123 <= k)%N → (N_of_ascii (toLowerChar c) <=? k)%N = (N_of_ascii c <=? k)%N.
Proof.
  intros Hk. rewrite toLowerChar_code.
  destruct (N.leb_spec 65 (N_of_ascii c)); [|done].
  destruct (N.leb_spec (N_of_ascii c) 90); [|done]. cbn [andb].
  destruct (N.leb_spec (N_of_ascii c + 32) k); [|lia].
  destruct (N.leb_spec (N_of_ascii c) k); [done|lia].
Qed.

Lemma isSpace2_toLowerChar (c1 c2 : ascii) :
  Utf8.isSpace2 (toLowerChar c1) (toLowerChar c2) = Utf8.isSpace2 c1 c2.
Proof. unfold Utf8.isSpace2. cbv zeta. by rewrite !toLowerChar_eqb by lia. Qed.

Lemma isSpace3_toLowerChar (c1 c2 c3 : ascii) :
  Utf8.isSpace3 (toLowerChar c1) (toLowerChar c2) (toLowerChar c3)
  = Utf8.isSpace3 c1 c2 c3.
Proof.
  unfold Utf8.isSpace3. cbv zeta.
  by rewrite !toLowerChar_eqb, toLowerChar_leb_l, toLowerChar_leb_r by lia.
Qed.

Lemma string_length_ind (P : string → Prop) :
  (∀ s, (∀ t, (String.length t < String.length s)%nat → P t) → P s) →
  ∀ s, P s.
Proof.
  intros H s. remember (String.length s) as n eqn:E. revert s E.
  induction n as [n IH] using lt_wf_ind. intros s ->.
  apply H. intros t Ht. by apply (IH (String.length t)).
Qed.

Lemma TrimLeft_ToLower (s : string) : TrimLeft (ToLower s) = ToLower (TrimLeft s).
Proof.
  induction s as [s IH] using string_length_ind.
  destruct s as [|c1 rest1]; [done|]. cbn [ToLower TrimLeft].
  rewrite isWhite_toLowerChar.
  destruct (isWhite c1); [apply IH; simpl; lia|].
  destruct rest1 as [|c2 rest2]; [done|]. cbn [ToLower].
  rewrite isSpace2_toLowerChar.
  destruct (Utf8.isSpace2 c1 c2); [apply IH; simpl; lia|].
  destruct rest2 as [|c3 rest3]; [done|]. cbn [ToLower].
  rewrite isSpace3_toLowerChar.
  destruct (Utf8.isSpace3 c1 c2 c3); [apply IH; simpl; lia|done].
Qed.

Lemma allWhite_ToLower (s : string) : allWhite (ToLower s) = allWhite s.
Proof.
  induction s as [s IH] using string_length_ind.
  destruct s as [|c1 rest1]; [done|]. cbn [ToLower allWhite].
  rewrite isWhite_toLowerChar.
  destruct (isWhite c1); [apply IH; simpl; lia|].
  destruct rest1 as [|c2 rest2]; [done|]. cbn [ToLower].
  rewrite isSpace2_toLowerChar.
  destruct (Utf8.isSpace2 c1 c2); [apply IH; simpl; lia|].
  destruct rest2 as [|c3 rest3]; [done|]. cbn [ToLower].
  rewrite isSpace3_toLowerChar. f_equal. apply IH. simpl. lia.
Qed.

Lemma TrimRight_cons (c : ascii) (s : string) :
  TrimRight (String c s)
  = if allWhite (String c s) then "" else String c (TrimRight s).
Proof. reflexivity. Qed.

Lemma TrimRight_ToLower (s : string) : TrimRight (ToLower s) = ToLower (TrimRight s).
Proof.
  induction s as [|c s IH]; [done|].
  change (ToLower (String c s)) with (String (toLowerChar c) (ToLower s)).
  rewrite !TrimRight_cons.
  change (String (toLowerChar c) (ToLower s)) with (ToLower (String c s)).
  rewrite allWhite_ToLower.
  destruct (allWhite (String c s)); [done|].
  cbn [ToLower]. by rewrite IH.
Qed.

Lemma TrimSpace_ToLower (s : string) : TrimSpace (ToLower s) = ToLower (TrimSpace s).
Proof. unfold TrimSpace. by rewrite TrimLeft_ToLower, TrimRight_ToLower. Qed.

(** X15. The kind tests do not see the case of letters: two texts that are
    equal once lowered to lower case are synonyms of the same kinds. *)
Theorem isType_case_insensitive (s t : string) :
  ToLower s = ToLower t →
  isTypeWithdraw s = isTypeWithdraw t ∧ isTypeDeposit s = isTypeDeposit t.
Proof.
  intros E. unfold isTypeWithdraw, isTypeDeposit. cbv zeta.
  assert (ToLower (TrimSpace s) = ToLower (TrimSpace t)) as ->; [|done].
  by rewrite <- !TrimSpace_ToLower, E.
Qed.

Lemma isType_case_insensitive_witness :
  isTypeWithdraw "WithDraw" = isTypeWithdraw "withdraw" ∧
  isTypeDeposit "WithDraw" = isTypeDeposit "withdraw".
Proof. apply (isType_case_insensitive "WithDraw" "withdraw"). reflexivity. Defined.

Lemma wrap_is_int (z : Z) : GoInt.is_int (GoInt.wrap z).
Proof.
  unfold GoInt.is_int, GoInt.wrap, GoInt.minInt, GoInt.maxInt.
  pose proof (Z.mod_pos_bound (z + 2 ^ 63) (2 ^ 64)). lia.
Qed.

Lemma wrap_add_wrap (a b : Z) : GoInt.wrap (a + GoInt.wrap b) = GoInt.wrap (a + b).
Proof. rewrite (Z.add_comm a), wrap_wrap_add. f_equal; lia. Qed.

Lemma balanceStep_signed (balance : Value) (transact : Transaction) :
  GoInt.wrap (balanceStep balance transact)
  = GoInt.wrap (balance + Env.signedAmount transact) ∧
  (GoInt.is_int balance → GoInt.is_int (balanceStep balance transact)).
Proof.
  unfold balanceStep, Env.signedAmount, Value_Add, GoInt.add, GoInt.neg.
  destruct (String.eqb (Type_ transact) Withdraw).
  { split; [|intros _; apply wrap_is_int].
    rewrite (wrap_small _ (wrap_is_int _)). apply wrap_add_wrap. }
  destruct (String.eqb (Type_ transact) Deposit).
  { split; [|intros _; apply wrap_is_int].
    by rewrite (wrap_small _ (wrap_is_int _)). }
  split; [by rewrite Z.add_0_r|done].
Qed.

Lemma foldl_balance_signed (transactions : list Transaction) : ∀ balance : Value,
  GoInt.wrap (foldl balanceStep balance transactions)
  = GoInt.wrap (balance + Env.signedSum transactions) ∧
  (GoInt.is_int balance → GoInt.is_int (foldl balanceStep balance transactions)).
Proof.
  induction transactions as [|t l IH]; intros balance.
  - simpl. by rewrite Z.add_0_r.
  - cbn [foldl Env.signedSum foldr].
    destruct (IH (balanceStep balance t)) as [IH1 IH2].
    destruct (balanceStep_signed balance t) as [H1 H2].
    split; [|auto]. rewrite IH1.
    rewrite <- wrap_wrap_add, H1, wrap_wrap_add. f_equal. 
    fold (Env.signedSum l). lia.
Qed.

Lemma signedSum_Permutation (l l' : list Transaction) :
  l ≡ₚ l' → Env.signedSum l = Env.signedSum l'.
Proof.
  induction 1 as [|x l l' _ IH|x y l|l l' l'' _ IH1 _ IH2]; simpl.
  - done.
  - fold (Env.signedSum l) (Env.signedSum l'). lia.
  - lia.
  - congruence.
Qed.

(** X16. The running balance is the sum of the deposits less the sum of the
    withdrawals, in Go's wrapping int arithmetic; so it does not depend on
    the order of the transactions. *)
Theorem RunningBalance_sum :
  (∀ transactions : list Transaction,
     RunningBalance transactions = GoInt.wrap (Env.signedSum transactions)) ∧
  (∀ l l' : list Transaction, l ≡ₚ l' → RunningBalance l = RunningBalance l').
Proof.
  assert (∀ transactions : list Transaction,
            RunningBalance transactions = GoInt.wrap (Env.signedSum transactions)) as H.
  { intros transactions. unfold RunningBalance.
    destruct (foldl_balance_signed transactions ZeroValue) as [H1 H2].
    rewrite <- (wrap_small (foldl balanceStep ZeroValue transactions)).
    - rewrite H1. f_equal.
    - apply H2. vm_compute. split; congruence. }
  split; [exact H|]. intros l l' Hp. by rewrite !H, (signedSum_Permutation l l' Hp).
Qed.

Lemma RunningBalance_sum_witness :
  RunningBalance [Demo.salary; Demo.rent] = RunningBalance [Demo.rent; Demo.salary].
Proof.
  destruct RunningBalance_sum as [_ H]. apply H. apply Permutation_swap.
Defined.

End MainMore.

Section TableMore.
Import Main.

Lemma sortedIds_spec (transactions : gmap Z Transaction) :
  StronglySorted Z.le (sortedIds transactions) ∧
  NoDup (sortedIds transactions) ∧
  ∀ id, id ∈ sortedIds transactions ↔ is_Some (transactions !! id).
Proof.
  unfold sortedIds. split; [|split].
  - apply StronglySorted_merge_sort; apply _.
  - rewrite merge_sort_Permutation. apply NoDup_fst_map_to_list.
  - intros id. rewrite merge_sort_Permutation, list_elem_of_fmap. split.
    + intros ([id' t] & -> & Hin). apply elem_of_map_to_list in Hin. by exists t.
    + intros [t Ht]. exists (id, t). split; [done|]. by apply elem_of_map_to_list.
Qed.

Lemma StronglySorted_le_lt (l : list Z) :
  StronglySorted Z.le l → NoDup l → StronglySorted Z.lt l.
Proof.
  induction 1 as [|x l Hl IH Hx]; intros Hnd; [constructor|].
  apply NoDup_cons in Hnd as [Hnotin Hnd]. constructor; [by apply IH|].
  rewrite Forall_forall in *. intros y Hy. specialize (Hx y Hy).
  assert (x ≠ y) by (intros ->; done). lia.
Qed.

Lemma rows_ids (transactions : gmap Z Transaction) :
  (printTransactionTable transactions).1.*1 = sortedIds transactions.
Proof.
  unfold printTransactionTable. simpl. rewrite <- list_fmap_compose.
  rewrite <- (list_fmap_id (sortedIds transactions)) at 2.
  by apply list_fmap_ext.
Qed.

(** X17. The table of printTransactionTable has one row for each entry of
    the map and no other row, each with the transaction of its ID, and the
    rows are in strictly ascending order of the IDs, whatever order the map is
    walked in. *)
Theorem printTransactionTable_rows (transactions : gmap Z Transaction) :
  let rows := (printTransactionTable transactions).1 in
  StronglySorted Z.lt rows.*1 ∧
  ∀ id transact, (id, transact) ∈ rows ↔ transactions !! id = Some transact.
Proof.
  cbv zeta. destruct (sortedIds_spec transactions) as (Hs & Hnd & Hin).
  split.
  - rewrite rows_ids. by apply StronglySorted_le_lt.
  - intros id transact. unfold printTransactionTable. simpl.
    rewrite list_elem_of_fmap. split.
    + intros (id' & [= -> ->] & Hid). apply Hin in Hid as [t Ht]. by rewrite Ht.
    + intros Ht. exists id. rewrite Ht. split; [done|]. apply Hin. by exists transact.
Qed.

Lemma skipped_absent (transact : Transaction) : skipped "" 0 0 "" transact = false.
Proof. reflexivity. Qed.

Lemma Filter_absent_lookup (database : Database) :
  Database_Size database <= GoInt.maxInt →
  ∃ idMap : gmap Z Transaction,
    Filter database "" 0 0 "" = Some (idMap, None) ∧
    ∀ id transact, idMap !! id = Some transact ↔
      0 <= id ∧ Transactions database !! Z.to_nat id = Some transact.
Proof.
  intros Hlen.
  destruct (filterLoop_spec database "" 0 0 "" Hlen
              (S (Z.to_nat (Database_Size database))) 0 ∅)
    as (idMap & Hrun & Hspec).
  { unfold Database_Size. lia. }
  { lia. }
  { intros j _. apply lookup_empty. }
  exists idMap. split; [done|]. intros id transact.
  rewrite Hspec, lookup_empty. split.
  - intros [?|(? & ? & _)]; done.
  - intros [? ?]. right. split; [done|]. split; [done|]. apply skipped_absent.
Qed.

Lemma numbered_keys (l : list Transaction) :
  (Env.numbered l).*1 = Z.of_nat <$> seq 0 (length l).
Proof.
  unfold Env.numbered. rewrite fmap_imap, <- imap_seq_0.
  by apply imap_ext.
Qed.

Lemma numbered_values (l : list Transaction) : (Env.numbered l).*2 = l.
Proof.
  unfold Env.numbered. rewrite fmap_imap.
  rewrite (imap_ext _ (λ _ t, t) l) by done.
  induction l as [|t l IH]; [done|]. csimpl. f_equal.
  rewrite <- IH at 2. by apply imap_ext.
Qed.

Lemma numbered_NoDup (l : list Transaction) : NoDup (Env.numbered l).*1.
Proof. rewrite numbered_keys. apply NoDup_fmap_2; [apply _|apply NoDup_seq]. Qed.

Lemma numbered_elem (l : list Transaction) (id : Z) (t : Transaction) :
  (id, t) ∈ Env.numbered l ↔ 0 <= id ∧ l !! Z.to_nat id = Some t.
Proof.
  unfold Env.numbered. rewrite elem_of_lookup_imap. split.
  - intros (i & y & [= -> ->] & Hl). split; [lia|]. by rewrite Nat2Z.id.
  - intros [Hid Hl]. exists (Z.to_nat id), t. split; [|done]. f_equal. lia.
Qed.

Lemma Filter_absent_map (database : Database) :
  Database_Size database <= GoInt.maxInt →
  Filter database "" 0 0 ""
  = Some (list_to_map (Env.numbered (Transactions database)), None).
Proof.
  intros Hlen. destruct (Filter_absent_lookup database Hlen) as (idMap & Hrun & Hspec).
  rewrite Hrun. do 2 f_equal. apply map_eq. intros id. apply option_eq. intros t.
  rewrite Hspec, <- elem_of_list_to_map by apply numbered_NoDup.
  by rewrite numbered_elem.
Qed.

(** X18. With every predicate absent (empty name and kind, zero minimum and
    maximum) the filter leaves nothing out: its result maps each index of the
    ledger to the transaction at that index, and holds nothing else. *)
Theorem Filter_absent_is_ledger (database : Database) :
  Database_Size database <= GoInt.maxInt →
  ∃ idMap : gmap Z Transaction,
    Filter database "" 0 0 "" = Some (idMap, None) ∧
    (∀ id, 0 <= id → idMap !! id = Transactions database !! Z.to_nat id) ∧
    (∀ id, id < 0 → idMap !! id = None) ∧
    size idMap = length (Transactions database).
Proof.
  intros Hlen. destruct (Filter_absent_lookup database Hlen) as (idMap & Hrun & Hspec).
  exists idMap. split; [done|]. split; [|split].
  - intros id Hid. apply option_eq. intros t. rewrite Hspec.
    split; [by intros [_ ?]|by split].
  - intros id Hid. apply eq_None_not_Some. intros [t Ht]. apply Hspec in Ht. lia.
  - rewrite (Filter_absent_map database Hlen) in Hrun. injection Hrun as <-.
    rewrite map_size_list_to_map by apply numbered_NoDup.
    unfold Env.numbered. apply length_imap.
Qed.

Lemma Filter_absent_is_ledger_witness :
  ∃ idMap : gmap Z Transaction,
    Filter Demo.sample "" 0 0 "" = Some (idMap, None) ∧
    idMap !! 2 = Some Demo.dp200 ∧ size idMap = 3%nat.
Proof.
  destruct (Filter_absent_is_ledger Demo.sample) as (idMap & Hrun & Hpos & _ & Hsize).
  { vm_compute. congruence. }
  exists idMap. split; [exact Hrun|]. split; [|exact Hsize].
  rewrite Hpos by lia. reflexivity.
Defined.

Lemma seq_sorted (n : nat) : ∀ j : nat, StronglySorted Z.le (Z.of_nat <$> seq j n).
Proof.
  induction n as [|n IH]; intros j; [constructor|].
  csimpl. constructor; [apply IH|].
  apply Forall_forall. intros x (i & -> & Hi)%list_elem_of_fmap.
  apply elem_of_seq in Hi. lia.
Qed.

Lemma printTransactionTable_numbered (l : list Transaction) :
  printTransactionTable (list_to_map (Env.numbered l))
  = (Env.numbered l, RunningBalance l).
Proof.
  set (m := list_to_map (Env.numbered l) : gmap Z Transaction).
  destruct (sortedIds_spec m) as (Hs & Hnd & Hin).
  assert (sortedIds m = Z.of_nat <$> seq 0 (length l)) as Hids.
  { apply (StronglySorted_unique Z.le); [done|apply seq_sorted|].
    apply NoDup_Permutation; [done| |].
    { rewrite <- numbered_keys. apply numbered_NoDup. }
    intros id. rewrite Hin, <- numbered_keys. unfold m. split.
    - intros [t Ht]. apply elem_of_list_to_map in Ht; [|apply numbered_NoDup].
      apply list_elem_of_fmap. by exists (id, t).
    - intros ([id' t] & -> & Ht)%list_elem_of_fmap. exists t.
      by apply elem_of_list_to_map; [apply numbered_NoDup|]. }
  assert ((printTransactionTable m).1 = Env.numbered l) as Hrows.
  { unfold printTransactionTable. simpl. rewrite Hids.
    apply list_eq. intros i. rewrite list_lookup_fmap.
    unfold Env.numbered. rewrite list_lookup_imap, list_lookup_fmap.
    destruct (l !! i) as [t|] eqn:Ht.
    - rewrite lookup_seq_lt by (by apply lookup_lt_Some in Ht). simpl.
      assert (m !! Z.of_nat i = Some t) as ->; [|done].
      apply elem_of_list_to_map; [apply numbered_NoDup|].
      apply numbered_elem. split; [lia|]. by rewrite Nat2Z.id.
    - apply lookup_ge_None in Ht. rewrite lookup_seq_ge by done. done. }
  unfold printTransactionTable in *. simpl in *. rewrite Hrows.
  by rewrite numbered_values.
Qed.

Variable Unmarshal : string → Database → Database * option Error.
Variable path : string.

(** X19. The filter action without any flag shows the whole ledger: when
    the file opens as [database], filterAction with the four flags empty
    prints one row for each transaction, in the order of the ledger and under
    its index, and below them the running balance of the ledger. *)
Theorem filterAction_no_flags (fs : FileSystem) (database : Database) :
  Open Unmarshal path fs = (database, None) →
  Database_Size database <= GoInt.maxInt →
  filterAction Unmarshal path fs "" "" "" ""
  = Some (Some (Env.numbered (Transactions database),
                RunningBalance (Transactions database)), None).
Proof.
  intros HO Hlen. unfold filterAction. rewrite HO.
  change (Parse "") with 0.
  rewrite (Filter_absent_map database Hlen). simpl.
  by rewrite printTransactionTable_numbered.
Qed.

(* The loop of listAction from [id] down: it ends without error and adds
   the transactions from [id] down to the larger of 0 and [startValue]. *)
Lemma latestLoop_spec (database : Database) (startValue : Z) :
  Database_Size database <= GoInt.maxInt →
  ∀ (fuel : nat) (id : Z) (idMap : gmap Z Transaction),
    -1 <= id < Database_Size database →
    (Z.to_nat (id + 1) < fuel)%nat →
    ∃ idMap',
      Cli.latestLoop database startValue fuel id idMap = Some (idMap', None) ∧
      ∀ j t, idMap' !! j = Some t ↔
        (0 <= j <= id ∧ startValue <= j ∧
         Transactions database !! Z.to_nat j = Some t) ∨
        (¬ (0 <= j <= id ∧ startValue <= j) ∧ idMap !! j = Some t).
Proof.
  intros Hlen fuel. induction fuel as [|fuel IH]; intros id idMap Hid Hfuel; [lia|].
  simpl. rewrite !Z.geb_leb.
  destruct (Z.leb_spec 0 id) as [H0|H0]; simpl.
  2:{ exists idMap. split; [done|]. intros j t. split.
      - intros Hj. right. split; [lia|done].
      - intros [(? & _)|(_ & ?)]; [lia|done]. }
  destruct (Z.leb_spec startValue id) as [Hs|Hs].
  2:{ exists idMap. split; [done|]. intros j t. split.
      - intros Hj. right. split; [lia|done].
      - intros [(? & ? & _)|(_ & ?)]; [lia|done]. }
  destruct (index_is_Some (Transactions database) id) as (t0 & _ & Ht0).
  { unfold Database_Size in Hid. lia. }
  rewrite (Read_in database id t0) by (lia || done). simpl.
  assert (GoInt.wrap (id - 1) = id - 1) as ->.
  { apply wrap_small. unfold GoInt.is_int, GoInt.minInt, GoInt.maxInt in *. lia. }
  destruct (IH (id - 1) (<[id:=t0]> idMap)) as (idMap' & Hrun & Hspec); [lia|lia|].
  exists idMap'. split; [done|]. intros j t. rewrite Hspec.
  destruct (decide (j = id)) as [->|Hne].
  - rewrite lookup_insert_eq, Ht0. split.
    + intros [(? & _)|(_ & [= <-])]; [lia|]. left. done.
    + intros [(_ & _ & [= <-])|(Hn & _)]; [|lia]. right. split; [lia|done].
  - rewrite lookup_insert_ne by done. split.
    + intros [(? & ? & ?)|(Hn & ?)]; [left; split; [lia|done]|].
      right. split; [lia|done].
    + intros [(? & ? & ?)|(Hn & ?)]; [left; split; [lia|done]|].
      right. split; [lia|done].
Qed.

Lemma Latest_lookup (database : Database) (limit : Z) :
  Database_Size database <= GoInt.maxInt →
  ∃ idMap : gmap Z Transaction,
    Cli.Latest database limit = Some (idMap, None) ∧
    ∀ id t, idMap !! id = Some t ↔
       0 <= id ∧ GoInt.wrap (Database_Size database - limit) <= id ∧
       Transactions database !! Z.to_nat id = Some t.
Proof.
  intros Hlen. unfold Cli.Latest. cbv zeta.
  assert (0 <= Database_Size database) as Hpos by (unfold Database_Size; lia).
  assert (GoInt.wrap (Database_Size database - 1) = Database_Size database - 1) as ->.
  { apply wrap_small. unfold GoInt.is_int, GoInt.minInt, GoInt.maxInt in *. lia. }
  destruct (latestLoop_spec database (GoInt.wrap (Database_Size database - limit))
              Hlen (S (Z.to_nat (Database_Size database)))
              (Database_Size database - 1) ∅)
    as (idMap & Hrun & Hspec); [lia|lia|].
  exists idMap. split; [done|].
  intros id t. rewrite Hspec, lookup_empty. split.
  - intros [((? & ?) & ? & ?)|(_ & ?)]; done.
  - intros (? & ? & Ht). left. split; [|done].
    apply lookup_lt_Some in Ht. unfold Database_Size. lia.
Qed.

(** X20. The map that listAction builds for a limit. On a ledger (a Go
    slice) the loop ends without error, and the map holds exactly the
    transactions at the indices from [Size() - limit] (taken as a Go int) on,
    each under its index: for a limit between 0 and the largest int these are
    the last [limit] transactions, or all of them when the ledger has fewer. *)
Theorem Latest_spec (database : Database) (limit : Z) :
  Database_Size database <= GoInt.maxInt →
  ∃ idMap : gmap Z Transaction,
    Cli.Latest database limit = Some (idMap, None) ∧
    (∀ id t, idMap !! id = Some t ↔
       0 <= id ∧ GoInt.wrap (Database_Size database - limit) <= id ∧
       Transactions database !! Z.to_nat id = Some t) ∧
    (0 <= limit <= GoInt.maxInt →
     ∀ id t, idMap !! id = Some t ↔
       0 <= id ∧ Database_Size database - limit <= id ∧
       Transactions database !! Z.to_nat id = Some t).
Proof.
  intros Hlen. destruct (Latest_lookup database limit Hlen) as (idMap & Hrun & Hgen).
  exists idMap. split; [done|]. split; [done|]. intros Hlimit id t. rewrite Hgen.
  assert (0 <= Database_Size database) as Hpos by (unfold Database_Size; lia).
  rewrite wrap_small; [done|].
  unfold GoInt.is_int, GoInt.minInt, GoInt.maxInt in *. lia.
Qed.

Lemma Latest_spec_witness :
  ∃ idMap : gmap Z Transaction,
    Cli.Latest Demo.home 1 = Some (idMap, None) ∧
    idMap !! 1 = Some Demo.rent ∧ idMap !! 0 = None.
Proof.
  destruct (Latest_spec Demo.home 1) as (idMap & Hrun & _ & Hspec).
  { vm_compute. congruence. }
  exists idMap. split; [exact Hrun|].
  assert (0 <= 1 <= GoInt.maxInt) as Hl by (vm_compute; split; congruence).
  split.
  - apply (Hspec Hl). vm_compute. repeat split; congruence.
  - apply eq_None_not_Some. intros [t Ht]. apply (Hspec Hl) in Ht.
    destruct Ht as (_ & H & _). vm_compute in H. by apply H.
Defined.

(** X21. The list action shows the whole ledger when the limit is not
    below its size: when the file opens as [database] and
    [Size() <= limit], listAction prints one row for each transaction, in the
    order of the ledger and under its index, and the running balance of the
    ledger. *)
Theorem listAction_whole (fs : FileSystem) (database : Database) (limit : Z) :
  Open Unmarshal path fs = (database, None) →
  Database_Size database <= limit <= GoInt.maxInt →
  Cli.listAction Unmarshal path fs limit
  = Some (Some (Env.numbered (Transactions database),
                RunningBalance (Transactions database)), None).
Proof.
  intros HO Hlimit. unfold Cli.listAction. rewrite HO.
  destruct (Latest_lookup database limit) as (idMap & Hrun & Hspec); [lia|].
  rewrite Hrun. simpl.
  assert (idMap = list_to_map (Env.numbered (Transactions database))) as ->.
  { apply map_eq. intros id. apply option_eq. intros t.
    rewrite Hspec, <- elem_of_list_to_map by apply numbered_NoDup.
    rewrite numbered_elem.
    assert (0 <= Database_Size database) by (unfold Database_Size; lia).
    rewrite wrap_small
      by (unfold GoInt.is_int, GoInt.minInt, GoInt.maxInt in *; lia).
    split; [by intros (? & _ & ?)|]. intros [? ?]. split; [done|]. split; [lia|done]. }
  by rewrite printTransactionTable_numbered.
Qed.

End TableMore.

Lemma listAction_whole_witness :
  Cli.listAction Demo2.unmarshal Demo.path
    (Demo.diskOf "Home,Salary,Rent" true) 10
  = Some (Some ([(0, Demo.salary); (1, Demo.rent)], 160000), None).
Proof.
  apply (listAction_whole Demo2.unmarshal Demo.path
           (Demo.diskOf "Home,Salary,Rent" true) Demo.home 10);
    [reflexivity|vm_compute; split; congruence].
Defined.

Lemma filterAction_no_flags_witness :
  Main.filterAction Demo2.unmarshal Demo.path
    (Demo.diskOf "Home,Salary,Rent" true) "" "" "" ""
  = Some (Some ([(0, Demo.salary); (1, Demo.rent)], 160000), None).
Proof.
  apply (filterAction_no_flags Demo2.unmarshal Demo.path
           (Demo.diskOf "Home,Salary,Rent" true) Demo.home);
    [reflexivity|vm_compute; congruence].
Defined.

(** ** The actions that ask the user *)

Section CliMore.
Import Main Cli.

Variable Marshal : Database → string * option Error.
Variable Unmarshal : string → Database → Database * option Error.
Variable path : string.

Lemma ReadString_line (line rest : string) :
  Env.oneLine line = true →
  ReadString (line +:+ Env.newline +:+ rest) = (line +:+ Env.newline, None, rest).
Proof.
  intros H. induction line as [|c line IH].
  - reflexivity.
  - simpl in H. apply andb_prop in H as [Hc H].
    rewrite !app_cons. simpl. apply negb_true_iff in Hc. rewrite Hc.
    by rewrite (IH H).
Qed.

Lemma ReadString_EOF (stdin : string) :
  Env.oneLine stdin = true → ReadString stdin = (stdin, Some EOF, "").
Proof.
  intros H. induction stdin as [|c s IH]; [done|].
  simpl in H. apply andb_prop in H as [Hc H]. apply negb_true_iff in Hc.
  simpl. by rewrite Hc, (IH H).
Qed.

Lemma isSpace2_newline (c1 : ascii) : Utf8.isSpace2 c1 "010" = false.
Proof. unfold Utf8.isSpace2. cbn. apply andb_false_r. Qed.

Lemma isSpace3_newline (c1 c2 : ascii) : Utf8.isSpace3 c1 c2 "010" = false.
Proof.
  unfold Utf8.isSpace3. cbn.
  destruct (N_of_ascii c1 =? 225)%N, (N_of_ascii c1 =? 226)%N,
    (N_of_ascii c1 =? 227)%N, (N_of_ascii c2 =? 154)%N,
    (N_of_ascii c2 =? 128)%N, (N_of_ascii c2 =? 129)%N; reflexivity.
Qed.

Lemma allWhite_newline (s : string) : allWhite (s +:+ Env.newline) = allWhite s.
Proof.
  induction s as [s IH] using string_length_ind.
  destruct s as [|c1 rest1]; [done|]. rewrite app_cons. cbn [allWhite].
  destruct (isWhite c1); [apply IH; simpl; lia|].
  destruct rest1 as [|c2 rest2].
  { rewrite app_empty_l. unfold Env.newline. by rewrite isSpace2_newline. }
  rewrite app_cons.
  destruct (Utf8.isSpace2 c1 c2); [apply IH; simpl; lia|].
  destruct rest2 as [|c3 rest3].
  { rewrite app_empty_l. unfold Env.newline. by rewrite isSpace3_newline. }
  rewrite app_cons. f_equal. apply IH. simpl. lia.
Qed.

Lemma TrimRight_newline (s : string) : TrimRight (s +:+ Env.newline) = TrimRight s.
Proof.
  induction s as [|c s IH]; [done|]. rewrite app_cons, !TrimRight_cons.
  rewrite <- app_cons, allWhite_newline.
  destruct (allWhite (String c s)); [done|]. by rewrite IH.
Qed.

Lemma TrimLeft_newline (s : string) :
  TrimLeft (s +:+ Env.newline)
  = match TrimLeft s with
    | EmptyString => EmptyString
    | t => t +:+ Env.newline
    end.
Proof.
  induction s as [s IH] using string_length_ind.
  destruct s as [|c1 rest1]; [done|]. rewrite app_cons. cbn [TrimLeft].
  destruct (isWhite c1); [apply IH; simpl; lia|].
  destruct rest1 as [|c2 rest2].
  { rewrite app_empty_l. unfold Env.newline. by rewrite isSpace2_newline. }
  rewrite app_cons.
  destruct (Utf8.isSpace2 c1 c2); [apply IH; simpl; lia|].
  destruct rest2 as [|c3 rest3].
  { rewrite app_empty_l. unfold Env.newline. by rewrite isSpace3_newline. }
  rewrite app_cons.
  destruct (Utf8.isSpace3 c1 c2 c3); [apply IH; simpl; lia|done].
Qed.

Lemma TrimSpace_newline (s : string) : TrimSpace (s +:+ Env.newline) = TrimSpace s.
Proof.
  unfold TrimSpace. rewrite TrimLeft_newline.
  destruct (TrimLeft s) as [|c t] eqn:E; [done|]. apply TrimRight_newline.
Qed.

Lemma getInput_line (line rest : string) :
  Env.oneLine line = true →
  getInput (line +:+ Env.newline +:+ rest) = (TrimSpace line, None, rest).
Proof.
  intros H. unfold getInput. rewrite (ReadString_line line rest H).
  by rewrite TrimSpace_newline.
Qed.

Lemma getInput_EOF (stdin : string) :
  Env.oneLine stdin = true → getInput stdin = ("", Some EOF, "").
Proof. intros H. unfold getInput. by rewrite (ReadString_EOF stdin H). Qed.

(** X22. The init action. Without the flag force it never touches a
    database that exists, whatever the user answers: the question is asked
    but its answer is not used. With the flag, or when no database exists,
    and the path can be written, it writes an empty ledger named by the first
    line of the input, trimmed (no name at all when the input has no complete
    line), and [Open] then returns that ledger. *)
Theorem initAction_spec (force : bool) (fs : FileSystem) (stdin : string) :
  (Exists path fs = true → force = false →
     initAction Marshal path force fs stdin = (fs, None)) ∧
  (Exists path fs = false ∨ force = true →
     ∀ json,
       let name := (getInput stdin).1.1 in
       Marshal (NewDatabase name) = (json, None) →
       Unmarshal json zeroDatabase = (NewDatabase name, None) →
       Env.usable path fs →
       (initAction Marshal path force fs stdin).2 = None ∧
       Open Unmarshal path (initAction Marshal path force fs stdin).1
       = (NewDatabase name, None)).
Proof.
  split.
  - intros HE ->. unfold initAction. by rewrite HE.
  - intros Hcase json name HM HU Hfs. unfold initAction.
    assert (Exists path fs && negb force = false) as ->.
    { destruct Hcase as [-> | ->]; [done|apply andb_false_r]. }
    subst name. destruct (getInput stdin) as [[name err] rest]. simpl in *.
    rewrite (Write_marshalled Marshal path fs _ json HM). simpl.
    split; [done|].
    destruct (WriteFile_usable path fs json Hfs) as (_ & HR & _).
    by apply (Open_decodable Unmarshal path _ json).
Qed.

(** X23. The delete action changes the file system only after the answer
    "y": whenever it returns and the first line of the input, trimmed, is not
    exactly "y" (or the input has no complete line), the file system is as
    before. *)
Theorem deleteAction_needs_yes (fs fs' : FileSystem) (arg stdin : string)
    (err : option Failure) :
  deleteAction Marshal Unmarshal path fs arg stdin = Some (fs', err) →
  (getInput stdin).1 ≠ ("y", None) →
  fs' = fs.
Proof.
  unfold deleteAction. intros Hrun Hans.
  destruct (Fmt.ParseInt arg) as [ID|e]; [|by injection Hrun as <- _].
  destruct (Get Unmarshal path fs ID) as [[transaction [e|]]|];
    [by injection Hrun as <- _| |done].
  destruct (getInput stdin) as [[confirmation [e|]] rest];
    [by injection Hrun as <- _|].
  simpl in Hans.
  destruct (String.eqb_spec confirmation wipeTransactionYes) as [->|Hne].
  - done.
  - simpl in Hrun. by injection Hrun as <- _.
Qed.

(** X24. The delete action after the answer "y". When the argument is the
    decimal text of an index in range of the ledger in the file, the first
    line of the input is "y", the shortened ledger serializes and the path can
    be written and read: the action returns no error and the file then holds
    the serialized ledger without that transaction. *)
Theorem deleteAction_confirmed (fs : FileSystem) (database : Database)
    (arg line rest json : string) (ID : Z) :
  Fmt.ParseInt arg = inl ID →
  Open Unmarshal path fs = (database, None) →
  0 <= ID < Database_Size database → Database_Size database <= GoInt.maxInt →
  Env.oneLine line = true → TrimSpace line = "y" →
  Marshal {| DatabaseName := DatabaseName database;
             Transactions := delete (Z.to_nat ID) (Transactions database) |}
  = (json, None) →
  Env.usable path fs →
  ∃ fs', deleteAction Marshal Unmarshal path fs arg
           (line +:+ Env.newline +:+ rest) = Some (fs', None) ∧
         ReadFile fs' path = (json, None).
Proof.
  intros HP HO Hin Hlen Hline Hy HM Hfs. unfold deleteAction, Get, Delete.
  rewrite HP, HO.
  destruct (index_is_Some (Transactions database) ID) as (t & _ & Ht).
  { unfold Database_Size in Hin. lia. }
  rewrite (Read_in database ID t) by (lia || done).
  rewrite (getInput_line line rest Hline), Hy. simpl.
  rewrite (Delete_in database ID Hlen Hin). simpl.
  rewrite (Write_marshalled Marshal path fs _ json HM).
  eexists. split; [done|]. simpl. by apply WriteFile_usable.
Qed.

Lemma askName_nonempty (fuel : nat) : ∀ stdin name rest,
  askName fuel stdin = Some (name, rest) → name ≠ "".
Proof.
  induction fuel as [|fuel IH]; intros stdin name rest; [done|]. simpl.
  destruct (getInput stdin) as [[n e] r].
  destruct (String.eqb_spec n ""); [apply IH|]. by intros [= <- _].
Qed.

Lemma askAction_known (fuel : nat) : ∀ stdin action rest,
  askAction fuel stdin = Some (action, rest) →
  action = Withdraw ∨ action = Deposit.
Proof.
  induction fuel as [|fuel IH]; intros stdin action rest; [done|]. simpl.
  destruct (getInput stdin) as [[a e] r].
  destruct (String.eqb a "wd"); [intros [= <- _]; by left|].
  destruct (String.eqb a "dp"); [intros [= <- _]; by right|].
  apply IH.
Qed.

Lemma askAmount_nonzero (fuel : nat) : ∀ stdin amount rest,
  askAmount fuel stdin = Some (amount, rest) → amount ≠ 0.
Proof.
  induction fuel as [|fuel IH]; intros stdin amount rest; [done|]. simpl.
  destruct (getInput stdin) as [[a e] r].
  destruct (Z.eqb_spec (Parse a) 0); [apply IH|]. by intros [= <- _].
Qed.

(** X25. The store action checks what it stores. Whenever it returns, it
    has called [Store] once, with a transaction whose name is not empty,
    whose kind is "withdraw" or "deposit" and whose amount is not zero. And it
    does return, at the first round of each question, on an input of three
    lines that hold a name that is not blank, "wd" or "dp", and an amount that
    does not parse as zero. *)
Theorem storeAction_validates (now : Time) (fs : FileSystem) :
  (∀ fuel stdin r,
     storeAction Marshal Unmarshal path fuel now fs stdin = Some r →
     ∃ name action amount,
       name ≠ "" ∧ (action = Withdraw ∨ action = Deposit) ∧ amount ≠ 0 ∧
       r = Store Marshal Unmarshal path fs (NewTransaction now name action amount)) ∧
  (∀ fuel name kind amount rest,
     Env.oneLine name = true → TrimSpace name ≠ "" →
     Env.oneLine kind = true →
     TrimSpace kind = "wd" ∨ TrimSpace kind = "dp" →
     Env.oneLine amount = true → Parse (TrimSpace amount) ≠ 0 →
     storeAction Marshal Unmarshal path (S fuel) now fs
       (name +:+ Env.newline +:+ kind +:+ Env.newline +:+ amount +:+ Env.newline +:+ rest)
     = Some (Store Marshal Unmarshal path fs
               (NewTransaction now (TrimSpace name)
                  (if String.eqb (TrimSpace kind) "wd" then Withdraw else Deposit)
                  (Parse (TrimSpace amount))))).
Proof.
  split.
  - intros fuel stdin r. unfold storeAction.
    destruct (askName fuel stdin) as [[name stdin1]|] eqn:E1; [|done]. simpl.
    destruct (askAction fuel stdin1) as [[action stdin2]|] eqn:E2; [|done]. simpl.
    destruct (askAmount fuel stdin2) as [[amount stdin3]|] eqn:E3; [|done]. simpl.
    intros [= <-]. exists name, action, amount.
    split; [by eapply askName_nonempty|].
    split; [by eapply askAction_known|].
    split; [by eapply askAmount_nonzero|done].
  - intros fuel name kind amount rest Hn Hn' Hk Hk' Ha Ha'. unfold storeAction.
    cbn [askName]. rewrite (getInput_line name _ Hn).
    destruct (String.eqb_spec (TrimSpace name) ""); [done|]. cbn [mbind option_bind].
    cbn [askAction]. rewrite (getInput_line kind _ Hk).
    assert (askAmount (S fuel) (amount +:+ Env.newline +:+ rest)
            = Some (Parse (TrimSpace amount), rest)) as HA.
    { cbn [askAmount]. rewrite (getInput_line amount _ Ha).
      by destruct (Z.eqb_spec (Parse (TrimSpace amount)) 0). }
    destruct Hk' as [-> | ->];
      cbv zeta; unfold Withdraw, Deposit;
      cbn [String.eqb Ascii.eqb Bool.eqb mbind option_bind];
      by rewrite HA.
Qed.

Lemma askName_EOF (fuel : nat) : ∀ stdin,
  Env.oneLine stdin = true → askName fuel stdin = None.
Proof.
  induction fuel as [|fuel IH]; intros stdin H; [done|].
  simpl. rewrite (getInput_EOF stdin H). simpl. by apply IH.
Qed.

(** X26. The store action does not return on an input that ends before a
    first complete line: the question for the name is asked again without
    end, since the end of the input reads as an empty answer. For every
    number of rounds, the loop is still asking. *)
Theorem storeAction_hangs_at_EOF (now : Time) (fs : FileSystem) (stdin : string) :
  Env.oneLine stdin = true →
  ∀ fuel, storeAction Marshal Unmarshal path fuel now fs stdin = None.
Proof.
  intros H fuel. unfold storeAction. by rewrite (askName_EOF fuel stdin H).
Qed.

End CliMore.

Lemma initAction_spec_witness :
  Cli.initAction Demo.marshal Demo.path false
    (Demo.diskOf "Home,Salary,Rent" true) ("y" +:+ Env.newline)
  = (Demo.diskOf "Home,Salary,Rent" true, None) ∧
  Open Demo.unmarshal Demo.path
    (Cli.initAction Demo.marshal Demo.path true
       (Demo.diskOf "Home,Salary,Rent" true) (" Home " +:+ Env.newline)).1
  = (NewDatabase "Home", None).
Proof.
  split.
  - destruct (initAction_spec Demo.marshal Demo.unmarshal Demo.path false
                (Demo.diskOf "Home,Salary,Rent" true) ("y" +:+ Env.newline))
      as [H _].
    apply H; reflexivity.
  - destruct (initAction_spec Demo.marshal Demo.unmarshal Demo.path true
                (Demo.diskOf "Home,Salary,Rent" true) (" Home " +:+ Env.newline))
      as [_ H].
    apply (H (or_intror eq_refl) "Home"); try reflexivity.
    vm_compute. split; reflexivity.
Defined.

Lemma deleteAction_needs_yes_witness :
  ∃ fs' err,
    Cli.deleteAction Demo.marshal Demo2.unmarshal Demo.path
      (Demo.diskOf "Home,Salary,Rent" true) "1" ("Y" +:+ Env.newline)
    = Some (fs', err) ∧
    fs' = Demo.diskOf "Home,Salary,Rent" true.
Proof.
  exists (Demo.diskOf "Home,Salary,Rent" true), None.
  split; [reflexivity|].
  apply (deleteAction_needs_yes Demo.marshal Demo2.unmarshal Demo.path
           (Demo.diskOf "Home,Salary,Rent" true) (Demo.diskOf "Home,Salary,Rent" true)
           "1" ("Y" +:+ Env.newline) None).
  - reflexivity.
  - vm_compute. congruence.
Defined.

Lemma deleteAction_confirmed_witness :
  ∃ fs',
    Cli.deleteAction Demo.marshal Demo2.unmarshal Demo.path
      (Demo.diskOf "Home,Salary,Rent" true) "1" ("y" +:+ Env.newline +:+ "")
    = Some (fs', None) ∧
    ReadFile fs' Demo.path = ("Home,Salary", None).
Proof.
  apply (deleteAction_confirmed Demo.marshal Demo2.unmarshal Demo.path
           (Demo.diskOf "Home,Salary,Rent" true) Demo.home "1" "y" "" "Home,Salary" 1);
    try reflexivity.
  - vm_compute. split; congruence.
  - vm_compute. congruence.
  - vm_compute. split; reflexivity.
Defined.

Lemma storeAction_validates_witness :
  Cli.storeAction Demo.marshal Demo2.unmarshal Demo.path 1 7
    (Demo.diskOf "Home" true)
    ("Salary" +:+ Env.newline +:+ "dp" +:+ Env.newline +:+ "2500.00"
     +:+ Env.newline +:+ "")
  = Some (Store Demo.marshal Demo2.unmarshal Demo.path (Demo.diskOf "Home" true)
            (NewTransaction 7 "Salary" Deposit 250000)).
Proof.
  destruct (storeAction_validates Demo.marshal Demo2.unmarshal Demo.path 7
              (Demo.diskOf "Home" true)) as [_ H].
  apply (H 0%nat "Salary" "dp" "2500.00" ""); try reflexivity.
  - vm_compute. congruence.
  - by right.
  - vm_compute. congruence.
Defined.

Lemma storeAction_hangs_at_EOF_witness :
  Cli.storeAction Demo.marshal Demo2.unmarshal Demo.path 50 7
    (Demo.diskOf "Home" true) "Salary"
  = None.
Proof.
  apply (storeAction_hangs_at_EOF Demo.marshal Demo2.unmarshal Demo.path 7
           (Demo.diskOf "Home" true) "Salary"). reflexivity.
Defined.

Lemma Earlier_Delete_inverted_witness :
  Earlier.Database_Delete Demo.home 1 = Some (Demo.home, Some errTransactionNotFound) ∧
  Earlier.Database_Delete Demo.home 2 = None.
Proof.
  destruct (Earlier_Delete_inverted Demo.home 1) as [H _]; [vm_compute; congruence|].
  destruct (Earlier_Delete_inverted Demo.home 2) as [_ H']; [vm_compute; congruence|].
  split.
  - apply H. vm_compute. split; congruence.
  - apply H'. vm_compute. intros [_ E]. discriminate E.
Defined.

Lemma Earlier_Read_inverted_witness :
  Earlier.Database_Read Demo.home 1 = Some (zeroTransaction, Some errTransactionNotFound) ∧
  Earlier.Database_Read Demo.home (-1) = None.
Proof.
  destruct (Earlier_Read_inverted Demo.home 1) as [H _].
  destruct (Earlier_Read_inverted Demo.home (-1)) as [_ H'].
  split.
  - apply H. vm_compute. split; congruence.
  - apply H'. vm_compute. intros [E _]. by apply E.
Defined.

Lemma Earlier_listAction_stops_witness :
  Earlier.listAction Demo.home = Some (None, Some errTransactionNotFound).
Proof. apply (Earlier_listAction_stops Demo.home). reflexivity. Defined.
